(** * A caching DNS forwarder: shallow embedding of [caching_dns.py]

    The development follows the Python module function by function.

    - Python's insertion-ordered [dict] with string keys is an association
      list without duplicate keys ([dict], [wf_dict]); [d[k]], [k in d],
      [d.setdefault(k, v)] and [del d[k]] are written out, [KeyError]
      included.
    - Statements that touch the object state, the sockets, the clock or the
      console run in the monad [M]: a world is threaded through, and a call
      either returns, raises, or never returns ([Block]: a [recvfrom] on a
      socket without timeout while nothing arrives).
    - [dnslib] and [pickle] are not part of the repository.  Their entry
      points are the fields of the class [Libs]; every theorem holds for
      any library behaviour.
    - A [datetime] is its number of microseconds since the epoch (the
      resolution of [datetime]); [timedelta(milliseconds=n)] is [1000 * n].
    - [socket.timeout] is taken to be [TimeoutError] (Python 3.10 and
      later), and [sendto] is taken to succeed. *)

From Stdlib Require Import ZArith List String Bool Lia.
From Stdlib Require Import Strings.Byte DecimalString.
Import ListNotations.

Local Open Scope string_scope.
Local Open Scope Z_scope.
Local Open Scope list_scope.

Set Implicit Arguments.

(** ** Exceptions and results *)

Inductive exn : Type :=
| FileNotFoundError
| EOFError
| UnpicklingError
| DNSError
| IndexError
| KeyError
| TimeoutError
| ConnectionResetError
| OSError.

(** [socket.error] is [OSError]; the subclasses that occur here. *)
Definition is_socket_error (e : exn) : bool :=
  match e with
  | FileNotFoundError | TimeoutError | ConnectionResetError | OSError => true
  | _ => false
  end.

Inductive result (A : Type) : Type :=
| Ok (a : A)
| Err (e : exn).

Arguments Ok {A} a.
Arguments Err {A} e.

(** ** Python dictionaries with string keys, in insertion order *)

Section Dict.
Variable V : Type.

Definition dict : Type := list (string * V).

Definition keys (d : dict) : list string := map fst d.

(** [d[k]]; [None] stands for [KeyError]. *)
Fixpoint dict_get (k : string) (d : dict) : option V :=
  match d with
  | [] => None
  | (k', v) :: rest => if String.eqb k k' then Some v else dict_get k rest
  end.

(** [k in d] *)
Definition dict_mem (k : string) (d : dict) : bool :=
  match dict_get k d with Some _ => true | None => false end.

(** [d.setdefault(k, v)]: a present key keeps its value, an absent one is
    appended. *)
Fixpoint dict_setdefault (k : string) (v : V) (d : dict) : dict :=
  match d with
  | [] => [(k, v)]
  | (k', v') :: rest =>
      if String.eqb k k' then d else (k', v') :: dict_setdefault k v rest
  end.

(** The outer dictionary after the object stored under [k] was mutated in
    place into [v]: the key keeps its position. *)
Fixpoint dict_update (k : string) (v : V) (d : dict) : dict :=
  match d with
  | [] => []
  | (k', v') :: rest =>
      if String.eqb k k' then (k', v) :: rest
      else (k', v') :: dict_update k v rest
  end.

(** [del d[k]]; [None] stands for [KeyError]. *)
Fixpoint dict_del (k : string) (d : dict) : option dict :=
  match d with
  | [] => None
  | (k', v') :: rest =>
      if String.eqb k k' then Some rest
      else match dict_del k rest with
           | Some rest' => Some ((k', v') :: rest')
           | None => None
           end
  end.

(** Keys of a dictionary are unique. *)
Definition wf_dict (d : dict) : Prop := NoDup (keys d).
End Dict.

(** ** Data of the DNS library, as far as the server looks at it *)

Definition bytes : Type := list byte.
Definition addr : Type := (string * Z)%type.
Definition datetime : Type := Z.

(** Payload of a resource record, opaque to the server. *)
Definition rdata_t : Type := list byte.

Record DNSHeader : Type := mkHeader { id : Z; bitmap : Z }.

Record DNSQuestion : Type :=
  mkQuestion { qname : string; qtype : Z; qclass : Z }.

Record RR : Type :=
  mkRR { rname : string; rtype : Z; rclass : Z; ttl : Z; rdata : rdata_t }.

Record DNSRecord : Type :=
  mkRecord { header : DNSHeader; questions : list DNSQuestion; rr : list RR }.

(** ** The cache *)

(** The Python list [[r_data, time_end, ttl]] stored per name and type. *)
Record entry : Type :=
  mkEntry { e_rdata : list rdata_t;   (* index 0 *)
            e_time_end : datetime;    (* index 1 *)
            e_ttl : Z }.              (* index 2 *)

(** [dns_cache[domain_name][q_type]] *)
Definition cache : Type := dict (dict entry).

Definition lookup (domain_name q_type : string) (c : cache) : option entry :=
  match dict_get domain_name c with
  | Some inner => dict_get q_type inner
  | None => None
  end.

Definition wf_cache (c : cache) : Prop :=
  wf_dict c /\ Forall (fun kv => wf_dict (snd kv)) c.

(** All [(domain_name, q_type, entry)] triples in iteration order. *)
Definition entries (c : cache) : list (string * string * entry) :=
  flat_map (fun kv => map (fun qe => (fst kv, fst qe, snd qe)) (snd kv)) c.

(** ** External libraries *)

Class Libs : Type :=
  { (** [DNSRecord.parse]; raises on a malformed packet *)
    parse : bytes -> result DNSRecord;
    (** [DNSRecord.pack] *)
    pack : DNSRecord -> bytes;
    (** [QTYPE[n]] *)
    QTYPE : Z -> result string;
    (** [DNSQuestion()], what [record.q] gives without a question *)
    default_question : DNSQuestion;
    (** [DNSHeader()] *)
    default_header : DNSHeader;
    (** [pickle.loads] and [pickle.dumps] *)
    pickle_loads : bytes -> result cache;
    pickle_dumps : cache -> bytes }.

(** ** Sockets, the world and the monad *)

Record socket : Type := mkSocket { fd : nat; timeout : option Z }.

(** [socket.socket(AF_INET, SOCK_DGRAM)]: blocking, no timeout. *)
Definition socket_new (n : nat) : socket := mkSocket n None.

(** [sock.settimeout(t)] *)
Definition settimeout (s : socket) (t : Z) : socket := mkSocket (fd s) (Some t).

(** What the network has for one [recvfrom]. *)
Inductive recv_event : Type :=
| Datagram (data : bytes) (from : addr)
| Silence
| ConnReset.

Inductive message : Type :=
| MsgFromCache (domain_name q_type : string)
| MsgBadRequest
| MsgExpired (domain_name q_type : string)
| MsgSocketError
| MsgStopping.

Record world : Type :=
  mkWorld { dns_cache : cache;
            running : bool;
            (** the successive readings of [datetime.now()] *)
            clock : nat -> datetime;
            reads : nat;
            (** pending network events per socket; an empty queue means
                that nothing arrives any more *)
            inbox : nat -> list recv_event;
            (** datagrams sent: socket, payload, destination *)
            sent : list (nat * bytes * addr);
            stdout : list message;
            files : string -> option bytes }.

Definition set_cache (c : cache) (w : world) : world :=
  mkWorld c (running w) (clock w) (reads w) (inbox w) (sent w) (stdout w) (files w).
Definition set_running (b : bool) (w : world) : world :=
  mkWorld (dns_cache w) b (clock w) (reads w) (inbox w) (sent w) (stdout w) (files w).
Definition set_reads (n : nat) (w : world) : world :=
  mkWorld (dns_cache w) (running w) (clock w) n (inbox w) (sent w) (stdout w) (files w).
Definition set_inbox (i : nat -> list recv_event) (w : world) : world :=
  mkWorld (dns_cache w) (running w) (clock w) (reads w) i (sent w) (stdout w) (files w).
Definition set_sent (s : list (nat * bytes * addr)) (w : world) : world :=
  mkWorld (dns_cache w) (running w) (clock w) (reads w) (inbox w) s (stdout w) (files w).
Definition set_stdout (o : list message) (w : world) : world :=
  mkWorld (dns_cache w) (running w) (clock w) (reads w) (inbox w) (sent w) o (files w).
Definition set_files (f : string -> option bytes) (w : world) : world :=
  mkWorld (dns_cache w) (running w) (clock w) (reads w) (inbox w) (sent w) (stdout w) f.

Inductive outcome (A : Type) : Type :=
| Ret (a : A)
| Raise (e : exn)
| Block.

Arguments Ret {A} a.
Arguments Raise {A} e.
Arguments Block {A}.

Definition M (A : Type) : Type := world -> outcome A * world.

Definition ret {A} (a : A) : M A := fun w => (Ret a, w).

Definition bind {A B} (m : M A) (f : A -> M B) : M B :=
  fun w =>
    match m w with
    | (Ret a, w') => f a w'
    | (Raise e, w') => (Raise e, w')
    | (Block, w') => (Block, w')
    end.

Definition raise {A} (e : exn) : M A := fun w => (Raise e, w).

(** [try: m  except <those e with handles e = true>: h] *)
Definition try_except {A} (m : M A) (handles : exn -> bool) (h : M A) : M A :=
  fun w =>
    match m w with
    | (Raise e, w') => if handles e then h w' else (Raise e, w')
    | r => r
    end.

Definition lift {A} (r : result A) : M A :=
  match r with Ok a => ret a | Err e => raise e end.

Definition lift_key {A} (o : option A) : M A :=
  match o with Some a => ret a | None => raise KeyError end.

Declare Scope py_scope.
Delimit Scope py_scope with py.
Notation "x <- m ;; k" := (bind m (fun x => k))
  (at level 100, m at next level, right associativity) : py_scope.
Notation "m ;;; k" := (bind m (fun _ => k))
  (at level 100, right associativity) : py_scope.
Local Open Scope py_scope.

Definition get_cache : M cache := fun w => (Ret (dns_cache w), w).
Definition put_cache (c : cache) : M unit := fun w => (Ret tt, set_cache c w).
Definition get_running : M bool := fun w => (Ret (running w), w).
Definition print (m : message) : M unit :=
  fun w => (Ret tt, set_stdout (stdout w ++ [m]) w).

(** [datetime.datetime.now()] *)
Definition now : M datetime :=
  fun w => (Ret (clock w (reads w)), set_reads (S (reads w)) w).

(** [timedelta(milliseconds=n)], in microseconds *)
Definition timedelta_milliseconds (n : Z) : Z := 1000 * n.
(** [timedelta(seconds=n)], in microseconds *)
Definition timedelta_seconds (n : Z) : Z := 1000000 * n.

(** [sock.sendto(data, address)] *)
Definition sendto (s : socket) (data : bytes) (a : addr) : M unit :=
  fun w => (Ret tt, set_sent (sent w ++ [(fd s, data, a)]) w).

(** A [recvfrom] for which nothing arrives: a socket with a timeout raises,
    a blocking socket does not return. *)
Definition nothing_arrives {A} (s : socket) : M A :=
  match timeout s with
  | Some _ => raise TimeoutError
  | None => fun w => (Block, w)
  end.

(** [sock.recvfrom(bufsize)] *)
Definition recvfrom (s : socket) (bufsize : nat) : M (bytes * addr) :=
  fun w =>
    match inbox w (fd s) with
    | [] => nothing_arrives s w
    | ev :: rest =>
        let w' :=
          set_inbox (fun n => if Nat.eqb n (fd s) then rest else inbox w n) w in
        match ev with
        | Datagram data from => (Ret (firstn bufsize data, from), w')
        | Silence => nothing_arrives s w'
        | ConnReset => (Raise ConnectionResetError, w')
        end
    end.

(** ** The module [caching_dns] *)

Section Server.
Context {L : Libs}.

(** [read_cache(path_file)]: [open] comes before the [try], and the
    handler is for [EOFError] alone. *)
Definition read_cache (fs : string -> option bytes) (path_file : string)
  : result cache :=
  match fs path_file with
  | None => Err FileNotFoundError
  | Some dns_cache =>
      match pickle_loads dns_cache with
      | Ok c => Ok c
      | Err EOFError => Ok []
      | Err e => Err e
      end
  end.

(** [record.q]: the first question, or a default one. *)
Definition get_q (r : DNSRecord) : DNSQuestion :=
  match questions r with
  | q :: _ => q
  | [] => default_question
  end.

(** [get_request_info(data)] *)
Definition get_request_info (data : bytes) : result (string * string) :=
  match parse data with
  | Err e => Err e
  | Ok request =>
      match QTYPE (qtype (get_q request)) with
      | Err e => Err e
      | Ok t => Ok (qname (get_q request), t)
      end
  end.

(** [get_response_info(data)]: [response.rr[0]] after the loop. *)
Definition get_response_info (data : bytes) : result (Z * list rdata_t) :=
  match parse data with
  | Err e => Err e
  | Ok response =>
      let rdata_list := map rdata (rr response) in
      match rr response with
      | [] => Err IndexError
      | first :: _ => Ok (ttl first, rdata_list)
      end
  end.

(** The address of the upstream resolver. *)
Definition upstream : addr := ("8.8.8.8", 53).

(** [self.save_dns_cache()] *)
Definition save_dns_cache : M unit :=
  fun w =>
    let serialized_data := pickle_dumps (dns_cache w) in
    (Ret tt,
     set_files (fun p => if String.eqb p "dns_cache.pickle"
                         then Some serialized_data else files w p) w).

(** The two [setdefault] calls of [make_request]. *)
Definition store (domain_name q_type : string) (e : entry) (c : cache) : cache :=
  let c1 := dict_setdefault domain_name ([] : dict entry) c in
  match dict_get domain_name c1 with
  | Some inner => dict_update domain_name (dict_setdefault q_type e inner) c1
  | None => c1
  end.

(** [self.make_request(sock_send, sock_rec, data_request, domain_name,
    q_type, address_request)] *)
Definition make_request (sock_send sock_rec : socket) (data_request : bytes)
    (domain_name q_type : string) (address_request : addr) : M unit :=
  sendto sock_send data_request upstream ;;;
  reply <- recvfrom sock_send 1024 ;;
  let data_response := fst reply in
  match data_response with
  | [] => ret tt
  | _ :: _ =>
      try_except
        (info <- lift (get_response_info data_response) ;;
         let ttl := fst info in
         let r_data := snd info in
         current_time <- now ;;
         let time_end := current_time + timedelta_milliseconds ttl in
         c <- get_cache ;;
         put_cache (store domain_name q_type (mkEntry r_data time_end ttl) c) ;;;
         sendto sock_rec data_response address_request)
        (fun _ => true)
        (print MsgBadRequest)
  end.

(** The [for r_data in r_data_list] loop of [prepare_dns_response]; the
    ttl is read from the cache for every answer. *)
Fixpoint add_answers (question : DNSQuestion) (domain_name q_type : string)
    (r_data_list : list rdata_t) (response : DNSRecord) : M DNSRecord :=
  match r_data_list with
  | [] => ret response
  | r_data :: rest =>
      c <- get_cache ;;
      e <- lift_key (lookup domain_name q_type c) ;;
      let answer := mkRR (qname question) (qtype question) 1 (e_ttl e) r_data in
      add_answers question domain_name q_type rest
        (mkRecord (header response) (questions response) (rr response ++ [answer]))
  end.

(** [self.prepare_dns_response(data_request, domain_name, q_type)] *)
Definition prepare_dns_response (data_request : bytes)
    (domain_name q_type : string) : M bytes :=
  request <- lift (parse data_request) ;;
  match questions request with
  | [] => raise IndexError
  | question :: _ =>
      c <- get_cache ;;
      e <- lift_key (lookup domain_name q_type c) ;;
      let r_data_list := e_rdata e in
      let response := mkRecord default_header [] [] in
      let response := mkRecord (header request) (questions response) (rr response) in
      let response :=
        mkRecord (header response) (questions response ++ [question]) (rr response) in
      response <- add_answers question domain_name q_type r_data_list response ;;
      ret (pack response)
  end.

(** The first loop of [search_expired_records], over the types of one
    domain. *)
Fixpoint scan_types (domain_name : string) (q_types : list string)
    (records_to_remove : list (string * string)) : M (list (string * string)) :=
  match q_types with
  | [] => ret records_to_remove
  | q_type :: rest =>
      c <- get_cache ;;
      e <- lift_key (lookup domain_name q_type c) ;;
      t <- now ;;
      scan_types domain_name rest
        (if e_time_end e <=? t
         then records_to_remove ++ [(domain_name, q_type)]
         else records_to_remove)
  end.

(** The first loop of [search_expired_records], over the domains. *)
Fixpoint scan_domains (domain_names : list string)
    (records_to_remove : list (string * string)) : M (list (string * string)) :=
  match domain_names with
  | [] => ret records_to_remove
  | domain_name :: rest =>
      c <- get_cache ;;
      inner <- lift_key (dict_get domain_name c) ;;
      records_to_remove <- scan_types domain_name (keys inner) records_to_remove ;;
      scan_domains rest records_to_remove
  end.

(** [del self.dns_cache[domain_name][q_type]] *)
Definition del_record (domain_name q_type : string) : M unit :=
  c <- get_cache ;;
  inner <- lift_key (dict_get domain_name c) ;;
  inner' <- lift_key (dict_del q_type inner) ;;
  put_cache (dict_update domain_name inner' c).

(** The second loop of [search_expired_records]. *)
Fixpoint remove_records (records_to_remove : list (string * string)) : M unit :=
  match records_to_remove with
  | [] => ret tt
  | (domain_name, q_type) :: rest =>
      print (MsgExpired domain_name q_type) ;;;
      del_record domain_name q_type ;;;
      remove_records rest
  end.

(** One pass of the [while self.running] loop of
    [search_expired_records]. *)
Definition sweep_pass : M unit :=
  c <- get_cache ;;
  records_to_remove <- scan_domains (keys c) [] ;;
  remove_records records_to_remove.
End Server.

(** ** The listener, the sweeper thread and the controller *)

Inductive loop_ctl : Type := Continue | Break.

(** What the [try] around [recvfrom] leaves behind. *)
Inductive received : Type :=
| Got (data_request : bytes) (address_request : addr)
| NoData          (* [data_request] is still the empty string *)
| Stop.           (* [break] *)

Definition listen_fd : nat := 0%nat.
Definition forward_fd : nat := 1%nat.

Section Threads.
Context {L : Libs}.

(** [domain_name in self.dns_cache and q_type in self.dns_cache[domain_name]] *)
Definition cached (domain_name q_type : string) (c : cache) : bool :=
  dict_mem domain_name c &&
  match dict_get domain_name c with
  | Some inner => dict_mem q_type inner
  | None => false
  end.

(** The body of the [while self.running] loop of [working_dns]. *)
Definition working_dns_body (sock_rec sock_send : socket) : M loop_ctl :=
  let sock_rec := settimeout sock_rec 5 in
  r <- try_except
         (x <- recvfrom sock_rec 1024 ;; ret (Got (fst x) (snd x)))
         (fun e => match e with
                   | ConnectionResetError | TimeoutError => true
                   | _ => false
                   end)
         (run <- get_running ;; ret (if run then NoData else Stop)) ;;
  match r with
  | Stop => ret Break
  | NoData => ret Continue
  | Got [] _ => ret Continue
  | Got data_request address_request =>
      info <- lift (get_request_info data_request) ;;
      let domain_name := fst info in
      let q_type := snd info in
      c <- get_cache ;;
      (if cached domain_name q_type c
       then
         e <- lift_key (lookup domain_name q_type c) ;;
         t <- now ;;
         if t <? e_time_end e
         then
           print (MsgFromCache domain_name q_type) ;;;
           response <- prepare_dns_response data_request domain_name q_type ;;
           sendto sock_rec response address_request
         else
           make_request sock_send sock_rec data_request domain_name q_type
             address_request
       else
         make_request sock_send sock_rec data_request domain_name q_type
           address_request) ;;;
      ret Continue
  end.

(** [while self.running: ...], for at most [fuel] iterations; the result
    tells whether the loop was left. *)
Fixpoint serve (fuel : nat) (sock_rec sock_send : socket) : M bool :=
  match fuel with
  | O => ret false
  | S fuel' =>
      run <- get_running ;;
      if run
      then
        ctl <- working_dns_body sock_rec sock_send ;;
        match ctl with
        | Break => ret true
        | Continue => serve fuel' sock_rec sock_send
        end
      else ret true
  end.

(** [self.working_dns()], the bind taken to succeed: only socket errors
    are caught around the loop. *)
Definition working_dns (fuel : nat) : M bool :=
  let sock_rec := socket_new listen_fd in
  let sock_send := socket_new forward_fd in
  try_except (serve fuel sock_rec sock_send) is_socket_error
    (print MsgSocketError ;;; ret true).

(** State of a thread of the process. *)
Inductive thread : Type :=
| InLoop                 (* at the head of its [while self.running] *)
| LeftLoop               (* saw the flag down and returned *)
| Died (e : exn)         (* left by an exception *)
| Stuck.                 (* inside a call that never returns *)

(** Program counter of [start_dns] after the threads were started. *)
Inductive ctl_pc : Type :=
| AtInput                (* line 150 *)
| AtSave                 (* line 153 *)
| AtExit                 (* lines 154 and 155 *)
| Exited.

Inductive event : Type :=
| EvFlagDown | EvSnapshot | EvExit | EvSweeperLeft | EvListenerLeft.

Record system : Type :=
  mkSystem { sys_world : world;
             ctl : ctl_pc;
             sweeper : thread;
             listener : thread;
             (** what happened so far, latest first *)
             trace : list event }.

(** The moves of the interleaving: a line read by [input()], the next
    statement of the controller, one loop round of either thread. *)
Inductive action : Type :=
| ActInput (line : string)
| ActController
| ActSweeper
| ActListener.

Definition thread_round {A} (r : outcome A * world) (left : A -> bool)
  : thread * world :=
  match r with
  | (Ret a, w') => (if left a then LeftLoop else InLoop, w')
  | (Raise e, w') => (Died e, w')
  | (Block, w') => (Stuck, w')
  end.

(** One move; a move that is not enabled leaves the system as it is.  A
    socket error in a round of the listener is caught around its loop and
    ends [working_dns]; any other exception ends the thread. *)
Definition step (a : action) (s : system) : system :=
  let w := sys_world s in
  match a with
  | ActInput line =>
      match ctl s with
      | AtInput =>
          if String.eqb line "exit"
          then mkSystem (set_running false w) AtSave (sweeper s) (listener s)
                 (EvFlagDown :: trace s)
          else s
      | _ => s
      end
  | ActController =>
      match ctl s with
      | AtSave =>
          mkSystem (snd (save_dns_cache w)) AtExit (sweeper s) (listener s)
            (EvSnapshot :: trace s)
      | AtExit =>
          mkSystem (snd (print MsgStopping w)) Exited (sweeper s) (listener s)
            (EvExit :: trace s)
      | _ => s
      end
  | ActSweeper =>
      match sweeper s with
      | InLoop =>
          if running w
          then let tw := thread_round (sweep_pass w) (fun _ => false) in
               mkSystem (snd tw) (ctl s) (fst tw) (listener s) (trace s)
          else mkSystem w (ctl s) LeftLoop (listener s)
                 (EvSweeperLeft :: trace s)
      | _ => s
      end
  | ActListener =>
      match listener s with
      | InLoop =>
          if running w
          then let tw :=
                 thread_round
                   (try_except
                      (working_dns_body (socket_new listen_fd)
                         (socket_new forward_fd))
                      is_socket_error
                      (print MsgSocketError ;;; ret Break) w)
                   (fun c => match c with Break => true | Continue => false end) in
               mkSystem (snd tw) (ctl s) (sweeper s) (fst tw)
                 (match fst tw with
                  | LeftLoop => EvListenerLeft :: trace s
                  | _ => trace s
                  end)
          else mkSystem w (ctl s) (sweeper s) LeftLoop
                 (EvListenerLeft :: trace s)
      | _ => s
      end
  end.

Definition run (acts : list action) (s : system) : system :=
  fold_left (fun s a => step a s) acts s.

(** The process once [start_dns] has started both threads. *)
Definition started (w : world) : system :=
  mkSystem (set_running true w) AtInput InLoop InLoop [].

(** [CachingDNS()]: the cache is read before anything else. *)
Definition boot (w : world) : result system :=
  match read_cache (files w) "dns_cache.pickle" with
  | Err e => Err e
  | Ok c => Ok (started (set_cache c w))
  end.
End Threads.


(** ** Concrete packets and one library behaviour

    The packets are DNS messages in wire format and the snapshots are
    pickles of protocol 4.  [sample_libs] answers for these byte strings
    as [dnslib] and [pickle] do; what it does with other input is said at
    each definition.  It serves to run the server on concrete inputs. *)

Module Sample.

(** Header id 0x1234, flags 0x0100, one question: [example.com. A IN]. *)
Definition question_bytes : bytes :=
  [x07; x65; x78; x61; x6d; x70; x6c; x65; x03; x63; x6f; x6d; x00;
   x00; x01; x00; x01].

Definition query : bytes :=
  [x12; x34; x01; x00; x00; x01; x00; x00; x00; x00; x00; x00]
    ++ question_bytes.

(** The answer: flags 0x8180, one A record, ttl 300, 93.184.216.34. *)
Definition answer : bytes :=
  [x12; x34; x81; x80; x00; x01; x00; x01; x00; x00; x00; x00]
    ++ question_bytes
    ++ [xc0; x0c; x00; x01; x00; x01; x00; x00; x01; x2c; x00; x04;
        x5d; xb8; xd8; x22].

(** An answer without records: flags 0x8180, ANCOUNT 0. *)
Definition answer_empty : bytes :=
  [x12; x34; x81; x80; x00; x01; x00; x00; x00; x00; x00; x00]
    ++ question_bytes.

(** A datagram shorter than a DNS header. *)
Definition garbage : bytes := [x00].

Definition example_question : DNSQuestion := mkQuestion "example.com." 1 1.
Definition example_rdata : rdata_t := [x5d; xb8; xd8; x22].

Definition query_record : DNSRecord :=
  mkRecord (mkHeader 4660 256) [example_question] [].
Definition answer_record : DNSRecord :=
  mkRecord (mkHeader 4660 33152) [example_question]
    [mkRR "example.com." 1 1 300 example_rdata].
Definition answer_empty_record : DNSRecord :=
  mkRecord (mkHeader 4660 33152) [example_question] [].

Fixpoint bytes_eqb (a b : bytes) : bool :=
  match a, b with
  | [], [] => true
  | x :: a', y :: b' => Byte.eqb x y && bytes_eqb a' b'
  | _, _ => false
  end.

(** [DNSRecord.parse] on the four packets above.  Every other byte string
    is answered with [DNSError], which is a simplification: [dnslib]
    parses every well-formed message. *)
Definition sample_parse (data : bytes) : result DNSRecord :=
  if bytes_eqb data query then Ok query_record
  else if bytes_eqb data answer then Ok answer_record
  else if bytes_eqb data answer_empty then Ok answer_empty_record
  else Err DNSError.

(** The names of [dnslib]'s [QTYPE] table (version 0.9); a number that is
    not in the table is named [TYPE] followed by its decimal digits. *)
Definition qtype_names : list (Z * string) :=
  [(1, "A"); (2, "NS"); (5, "CNAME"); (6, "SOA"); (10, "NULL"); (12, "PTR");
   (13, "HINFO"); (15, "MX"); (16, "TXT"); (17, "RP"); (18, "AFSDB");
   (24, "SIG"); (25, "KEY"); (28, "AAAA"); (29, "LOC"); (33, "SRV");
   (35, "NAPTR"); (36, "KX"); (37, "CERT"); (38, "A6"); (39, "DNAME");
   (41, "OPT"); (42, "APL"); (43, "DS"); (44, "SSHFP"); (45, "IPSECKEY");
   (46, "RRSIG"); (47, "NSEC"); (48, "DNSKEY"); (49, "DHCID");
   (50, "NSEC3"); (51, "NSEC3PARAM"); (52, "TLSA"); (53, "HIP");
   (55, "HIP"); (59, "CDS"); (60, "CDNSKEY"); (61, "OPENPGPKEY");
   (62, "CSYNC"); (63, "ZONEMD"); (64, "SVCB"); (65, "HTTPS"); (99, "SPF");
   (108, "EUI48"); (109, "EUI64"); (249, "TKEY"); (250, "TSIG");
   (251, "IXFR"); (252, "AXFR"); (255, "ANY"); (256, "URI"); (257, "CAA");
   (32768, "TA"); (32769, "DLV")].

Definition sample_QTYPE (n : Z) : result string :=
  match find (fun kv => fst kv =? n) qtype_names with
  | Some kv => Ok (snd kv)
  | None =>
      Ok (String.append "TYPE"
            (NilZero.string_of_uint (N.to_uint (Z.to_N n))))
  end.

(** The header id and the payloads, one after the other. *)
Definition sample_pack (r : DNSRecord) : bytes :=
  (match Byte.of_N (Z.to_N (id (header r) / 256)),
         Byte.of_N (Z.to_N (id (header r) mod 256)) with
   | Some hi, Some lo => [hi; lo]
   | _, _ => []
   end ++ List.concat (map rdata (rr r))).

(** An entry for another address that expired one second before time 0. *)
Definition old_entry : entry := mkEntry [[x0a; x00; x00; x01]] (-1000000) 60.

Definition cache_with (e : entry) : cache := [("example.com.", [("A", e)])].

Definition example_rdata6 : rdata_t :=
  [x26; x06; x28; x00; x02; x20; x00; x01; x02; x48; x18; x93; x25; xc8;
   x19; x46].

(** The A entry expires at 10 s, the AAAA entry at 0.5 s. *)
Definition entry_a : entry := mkEntry [example_rdata] 10000000 300.
Definition entry_aaaa : entry := mkEntry [example_rdata6] 500000 300.
Definition two_entries : cache :=
  [("example.com.", [("A", entry_a); ("AAAA", entry_aaaa)])].

(** One entry fresh throughout, one that expires at 0.5 s, and one that
    expired a second before time 0. *)
Definition three_entries : cache :=
  [("example.com.", [("A", entry_a); ("AAAA", entry_aaaa)]);
   ("example.org.", [("A", old_entry)])].

(** The pickle of the empty dictionary, protocol 4: PROTO 4, EMPTY_DICT,
    MEMOIZE, STOP. *)
Definition empty_pickle : bytes := [x80; x04; x7d; x94; x2e].

(** The pickle, protocol 4, of [cache_with entry_a], that is of
    [{'example.com.': {'A': [[b'\x5d\xb8\xd8\x22'],
    datetime(1970, 1, 1, 0, 0, 10), 300]}}]: 95 bytes, framed. *)
Definition entry_a_pickle : bytes :=
  [x80; x04; x95; x54; x00; x00; x00; x00; x00; x00; x00; x7d; x94; x8c;
   x0c; x65; x78; x61; x6d; x70; x6c; x65; x2e; x63; x6f; x6d; x2e; x94;
   x7d; x94; x8c; x01; x41; x94; x5d; x94; x28; x5d; x94; x43; x04; x5d;
   xb8; xd8; x22; x94; x61; x8c; x08; x64; x61; x74; x65; x74; x69; x6d;
   x65; x94; x8c; x08; x64; x61; x74; x65; x74; x69; x6d; x65; x94; x93;
   x94; x43; x0a; x07; xb2; x01; x01; x00; x00; x0a; x00; x00; x00; x94;
   x85; x94; x52; x94; x4d; x2c; x01; x65; x73; x73; x2e].

(** [p] is a prefix of [data]. *)
Fixpoint starts_with (p data : bytes) : bool :=
  match p, data with
  | [], _ => true
  | x :: p', y :: data' => Byte.eqb x y && starts_with p' data'
  | _ :: _, [] => false
  end.

(** [pickle.loads] on the byte strings that matter here.  Unpickling
    stops at STOP, so whatever follows a complete pickle is ignored.  Input
    that ends where the next opcode is due (nothing at all, or the pickle
    of [{}] cut after PROTO 4, after EMPTY_DICT or after MEMOIZE) raises
    [EOFError]; a lone PROTO byte is a truncated argument and raises
    [UnpicklingError], as does a first byte that is no opcode.  Every
    other input is answered with [UnpicklingError] too, which is a
    simplification: [pickle] decodes many more. *)
Definition sample_loads (data : bytes) : result cache :=
  if starts_with empty_pickle data then Ok []
  else if starts_with entry_a_pickle data then Ok (cache_with entry_a)
  else if bytes_eqb data []
          || bytes_eqb data [x80; x04]
          || bytes_eqb data [x80; x04; x7d]
          || bytes_eqb data [x80; x04; x7d; x94]
       then Err EOFError
       else Err UnpicklingError.

Fixpoint list_eqb {A} (eqb : A -> A -> bool) (a b : list A) : bool :=
  match a, b with
  | [], [] => true
  | x :: a', y :: b' => eqb x y && list_eqb eqb a' b'
  | _, _ => false
  end.

Definition entry_eqb (a b : entry) : bool :=
  list_eqb bytes_eqb (e_rdata a) (e_rdata b)
  && (e_time_end a =? e_time_end b) && (e_ttl a =? e_ttl b).

Definition dict_eqb {V} (eqb : V -> V -> bool) (a b : dict V) : bool :=
  list_eqb (fun x y => String.eqb (fst x) (fst y) && eqb (snd x) (snd y)) a b.

Definition cache_eqb : cache -> cache -> bool := dict_eqb (dict_eqb entry_eqb).

(** [pickle.dumps] on the two caches whose pickles are given above.  For
    any other cache the sample has no pickle and writes a single zero
    byte, which does not load. *)
Definition sample_dumps (c : cache) : bytes :=
  if cache_eqb c [] then empty_pickle
  else if cache_eqb c (cache_with entry_a) then entry_a_pickle
  else [x00].

Definition sample_libs : Libs :=
  Build_Libs sample_parse sample_pack sample_QTYPE
    (mkQuestion "." 1 1) (mkHeader 0 256) sample_loads sample_dumps.

Definition client : addr := ("127.0.0.1", 40000).

(** A world with an empty cache, a clock that reads [t0], [t0 + 1 s], ...
    and nothing on the network or on disk. *)
Definition quiet (t0 : datetime) : world :=
  mkWorld [] true (fun n => t0 + 1000000 * Z.of_nat n) 0
    (fun _ => []) [] [] (fun _ => None).

(** The same with [evs] waiting on the forwarding socket. *)
Definition with_upstream (evs : list recv_event) (w : world) : world :=
  set_inbox (fun n => if Nat.eqb n forward_fd then evs else inbox w n) w.

(** The same with [evs] waiting on the listening socket. *)
Definition with_clients (evs : list recv_event) (w : world) : world :=
  set_inbox (fun n => if Nat.eqb n listen_fd then evs else inbox w n) w.

End Sample.

(** ** Auxiliary definitions for the statements *)

(** The world once the first pending datagram was taken off the listening
    socket. *)
Definition taken (rest : list recv_event) (w : world) : world :=
  set_inbox (fun n => if Nat.eqb n listen_fd then rest else inbox w n) w.

(** The answer that [prepare_dns_response] builds for one payload. *)
Definition answer_for (question : DNSQuestion) (e : entry) (r_data : rdata_t) : RR :=
  mkRR (qname question) (qtype question) 1 (e_ttl e) r_data.

(** The keys that a scan collects when it examines [es] in order and the
    clock is read for the [n]-th time at the first of them. *)
Fixpoint expired_at (clk : nat -> datetime) (n : nat)
    (es : list (string * string * entry)) : list (string * string) :=
  match es with
  | [] => []
  | (domain_name, q_type, e) :: rest =>
      (if e_time_end e <=? clk n then [(domain_name, q_type)] else [])
        ++ expired_at clk (S n) rest
  end.

(** The clock never goes back. *)
Definition monotone (clk : nat -> datetime) : Prop :=
  forall i j, (i <= j)%nat -> clk i <= clk j.

(** The events of the controller among those of a trace. *)
Definition controller_events (tr : list event) : list event :=
  filter (fun ev => match ev with
                    | EvFlagDown | EvSnapshot | EvExit => true
                    | _ => false
                    end) tr.

(** The events the controller has produced when it stands at [pc]. *)
Definition done_at (pc : ctl_pc) : list event :=
  match pc with
  | AtInput => []
  | AtSave => [EvFlagDown]
  | AtExit => [EvSnapshot; EvFlagDown]
  | Exited => [EvExit; EvSnapshot; EvFlagDown]
  end.

(** The controller's events in the trace are those of its program
    counter, whatever the threads did in between. *)
Definition in_order (s : system) : Prop :=
  controller_events (trace s) = done_at (ctl s).

(** ** Frames and invariants *)

(** [m] leaves every world [R]-related to the one it started from, whether
    it returns, raises or blocks. *)
Definition keeps {A} (R : world -> world -> Prop) (m : M A) : Prop :=
  forall w, R w (snd (m w)).

(** The flag, the clock and the files are as before. *)
Definition same_env (w w' : world) : Prop :=
  running w' = running w /\ clock w' = clock w /\ files w' = files w.

(** Nothing was sent and nothing was taken off a socket. *)
Definition same_network (w w' : world) : Prop :=
  sent w' = sent w /\ inbox w' = inbox w.

(** No entry of the cache has an empty record list. *)
Definition nonempty_records (c : cache) : Prop :=
  forall d q e, lookup d q c = Some e -> e_rdata e <> [].

(** The line that the sweeper prints for a key. *)
Definition expired_message (k : string * string) : message :=
  MsgExpired (fst k) (snd k).

(** The flag is up exactly while the controller waits for its input. *)
Definition flag_follows_controller (s : system) : Prop :=
  running (sys_world s) = match ctl s with AtInput => true | _ => false end.

(** The sweeper leaves its loop only after the flag went down. *)
Definition leaves_after_flag (s : system) : Prop :=
  sweeper s = LeftLoop -> ctl s <> AtInput.

(** * Properties *)

Unset Implicit Arguments.
Local Arguments firstn : simpl never.

(** ** Dictionaries *)

Section DictFacts.
Context {V : Type}.
Implicit Types (d : dict V) (k : string) (v : V).

Lemma dict_get_in k v d : dict_get k d = Some v -> In (k, v) d.
Proof.
  induction d as [|[k' v'] rest IH]; simpl; [discriminate|].
  destruct (String.eqb_spec k k') as [->|Hne].
  - intros [= ->]. now left.
  - intros H. right. auto.
Qed.

Lemma dict_get_none_keys k d : dict_get k d = None <-> ~ In k (keys d).
Proof.
  induction d as [|[k' v'] rest IH]; simpl.
  - tauto.
  - destruct (String.eqb_spec k k') as [->|Hne].
    + split; [discriminate | intros H; exfalso; apply H; now left].
    + rewrite IH. split.
      * intros H [E|E]; [congruence | contradiction].
      * intros H E. apply H. now right.
Qed.

Lemma in_dict_get k v d : wf_dict d -> In (k, v) d -> dict_get k d = Some v.
Proof.
  unfold wf_dict.
  induction d as [|[k' v'] rest IH]; simpl; [contradiction|].
  intros Hnd [E|E].
  - inversion E; subst. now rewrite String.eqb_refl.
  - inversion Hnd as [|? ? Hk Hrest]; subst.
    destruct (String.eqb_spec k k') as [->|Hne].
    + exfalso. apply Hk. change k' with (fst (k', v)). now apply in_map.
    + auto.
Qed.

Lemma dict_get_setdefault_present k v v0 d :
  dict_get k d = Some v0 -> dict_setdefault k v d = d.
Proof.
  induction d as [|[k' v'] rest IH]; simpl; [discriminate|].
  destruct (String.eqb k k'); [reflexivity|].
  intros H. now rewrite IH.
Qed.

Lemma dict_get_setdefault_absent k v d :
  dict_get k d = None -> dict_get k (dict_setdefault k v d) = Some v.
Proof.
  induction d as [|[k' v'] rest IH]; simpl.
  - now rewrite String.eqb_refl.
  - destruct (String.eqb k k') eqn:E; [discriminate|].
    intros H. simpl. now rewrite E, IH.
Qed.

Lemma dict_get_setdefault_other k k0 v d :
  k0 <> k -> dict_get k0 (dict_setdefault k v d) = dict_get k0 d.
Proof.
  intros Hne.
  induction d as [|[k' v'] rest IH]; simpl.
  - destruct (String.eqb_spec k0 k); [contradiction | reflexivity].
  - destruct (String.eqb k k'); [reflexivity|].
    simpl. now rewrite IH.
Qed.

Lemma dict_get_update_same k v v0 d :
  dict_get k d = Some v0 -> dict_get k (dict_update k v d) = Some v.
Proof.
  induction d as [|[k' v'] rest IH]; simpl; [discriminate|].
  destruct (String.eqb k k') eqn:E; simpl; rewrite E; auto.
Qed.

Lemma dict_get_update_other k k0 v d :
  k0 <> k -> dict_get k0 (dict_update k v d) = dict_get k0 d.
Proof.
  intros Hne.
  induction d as [|[k' v'] rest IH]; simpl; [reflexivity|].
  destruct (String.eqb_spec k k') as [->|Hk]; simpl.
  - destruct (String.eqb_spec k0 k'); [contradiction | reflexivity].
  - now rewrite IH.
Qed.

Lemma keys_update k v d : keys (dict_update k v d) = keys d.
Proof.
  induction d as [|[k' v'] rest IH]; simpl; [reflexivity|].
  destruct (String.eqb k k'); simpl; [reflexivity | now rewrite IH].
Qed.

Lemma dict_del_some k v d : dict_get k d = Some v -> exists d', dict_del k d = Some d'.
Proof.
  induction d as [|[k' v'] rest IH]; simpl; [discriminate|].
  destruct (String.eqb k k'); [eauto|].
  intros H. destruct (IH H) as [d' ->]. eauto.
Qed.

Lemma dict_del_keys k d d' :
  dict_del k d = Some d' -> forall k0, In k0 (keys d') -> In k0 (keys d).
Proof.
  revert d'.
  induction d as [|[k' v'] rest IH]; simpl; [discriminate|].
  intros d'. destruct (String.eqb k k').
  - intros [= <-] k0 H. now right.
  - destruct (dict_del k rest) as [r|]; [|discriminate].
    intros [= <-] k0 [H|H]; [now left | right; eauto].
Qed.

Lemma dict_del_wf k d d' : wf_dict d -> dict_del k d = Some d' -> wf_dict d'.
Proof.
  unfold wf_dict. revert d'.
  induction d as [|[k' v'] rest IH]; simpl; [discriminate|].
  intros d' Hnd. inversion Hnd as [|? ? Hk Hrest]; subst.
  destruct (String.eqb k k').
  - now intros [= <-].
  - destruct (dict_del k rest) as [r|] eqn:E; [|discriminate].
    intros [= <-]. simpl. constructor; [|now apply IH].
    intros H. apply Hk. eapply dict_del_keys; eauto.
Qed.

(** After [del d[k]] the key is gone. *)
Lemma dict_get_del_same k d d' :
  wf_dict d -> dict_del k d = Some d' -> dict_get k d' = None.
Proof.
  unfold wf_dict. revert d'.
  induction d as [|[k' v'] rest IH]; simpl; [discriminate|].
  intros d' Hnd. inversion Hnd as [|? ? Hk Hrest]; subst.
  destruct (String.eqb_spec k k') as [->|Hne].
  - intros [= <-]. now apply dict_get_none_keys.
  - destruct (dict_del k rest) as [r|] eqn:E; [|discriminate].
    intros [= <-]. simpl.
    destruct (String.eqb_spec k k'); [contradiction | now apply IH].
Qed.

Lemma dict_get_del_other k k0 d d' :
  k0 <> k -> dict_del k d = Some d' -> dict_get k0 d' = dict_get k0 d.
Proof.
  intros Hne. revert d'.
  induction d as [|[k' v'] rest IH]; simpl; [discriminate|].
  intros d'. destruct (String.eqb_spec k k') as [->|Hk].
  - intros [= <-]. destruct (String.eqb_spec k0 k'); [contradiction | reflexivity].
  - destruct (dict_del k rest) as [r|] eqn:E; [|discriminate].
    intros [= <-]. simpl. now rewrite (IH r).
Qed.

(** A second [del d[k]] raises [KeyError]. *)
Lemma dict_del_absent k d : dict_get k d = None -> dict_del k d = None.
Proof.
  induction d as [|[k' v'] rest IH]; simpl; [reflexivity|].
  destruct (String.eqb k k'); [discriminate|].
  intros H. now rewrite IH.
Qed.
End DictFacts.

(** ** The two [setdefault] calls *)

Lemma lookup_store_absent domain_name q_type e c :
  lookup domain_name q_type c = None ->
  lookup domain_name q_type (store domain_name q_type e c) = Some e.
Proof.
  unfold lookup, store. cbv zeta. intros H.
  destruct (dict_get domain_name c) as [inner|] eqn:E.
  - rewrite (dict_get_setdefault_present _ _ _ _ E), E.
    rewrite (dict_get_update_same _ _ _ _ E).
    now apply dict_get_setdefault_absent.
  - rewrite (dict_get_setdefault_absent _ _ _ E).
    erewrite dict_get_update_same by now apply dict_get_setdefault_absent.
    simpl. now rewrite String.eqb_refl.
Qed.

Lemma store_present domain_name q_type e e0 c :
  lookup domain_name q_type c = Some e0 ->
  lookup domain_name q_type (store domain_name q_type e c) = Some e0.
Proof.
  unfold lookup, store. cbv zeta. intros H.
  destruct (dict_get domain_name c) as [inner|] eqn:E; [|discriminate].
  rewrite (dict_get_setdefault_present _ _ _ _ E), E.
  rewrite (dict_get_update_same _ _ _ _ E).
  now rewrite (dict_get_setdefault_present _ _ _ _ H).
Qed.

(** ** Forwarding: [make_request] *)

Section Forwarding.
Context {L : Libs}.
Variables (sock_send sock_rec : socket) (data_request : bytes).
Variables (domain_name q_type : string) (address_request : addr).

Local Notation forward :=
  (make_request sock_send sock_rec data_request domain_name q_type
     address_request).

(** A decodable reply with at least one record: the entry goes through
    the two [setdefault] calls and the reply is relayed. *)
Lemma make_request_decoded (w : world) data from rest ttl r_data :
  inbox w (fd sock_send) = Datagram data from :: rest ->
  firstn 1024 data <> [] ->
  get_response_info (firstn 1024 data) = Ok (ttl, r_data) ->
  fst (forward w) = Ret tt /\
  dns_cache (snd (forward w)) =
    store domain_name q_type
      (mkEntry r_data (clock w (reads w) + timedelta_milliseconds ttl) ttl)
      (dns_cache w) /\
  sent (snd (forward w)) =
    sent w ++ [(fd sock_send, data_request, upstream);
               (fd sock_rec, firstn 1024 data, address_request)] /\
  stdout (snd (forward w)) = stdout w.
Proof.
  intros Hin Hne Hinfo.
  unfold make_request, bind, sendto, recvfrom. cbn.
  rewrite Hin. cbn.
  destruct (firstn 1024 data) as [|b d] eqn:Hd; [congruence|].
  unfold try_except, bind. rewrite Hinfo. cbn.
  rewrite <- app_assoc. auto.
Qed.

(** A reply that does not decode, or decodes to no record at all: the
    handler prints, nothing is stored and nothing goes to the client. *)
Lemma make_request_rejected (w : world) data from rest e :
  inbox w (fd sock_send) = Datagram data from :: rest ->
  firstn 1024 data <> [] ->
  get_response_info (firstn 1024 data) = Err e ->
  fst (forward w) = Ret tt /\
  dns_cache (snd (forward w)) = dns_cache w /\
  sent (snd (forward w)) = sent w ++ [(fd sock_send, data_request, upstream)] /\
  stdout (snd (forward w)) = stdout w ++ [MsgBadRequest].
Proof.
  intros Hin Hne Hinfo.
  unfold make_request, bind, sendto, recvfrom. cbn.
  rewrite Hin. cbn.
  destruct (firstn 1024 data) as [|b d] eqn:Hd; [congruence|].
  unfold try_except, bind. rewrite Hinfo. cbn. auto.
Qed.

(** Nothing arrives on a socket without timeout: the call does not
    return. *)
Lemma make_request_silent (w : world) :
  timeout sock_send = None ->
  inbox w (fd sock_send) = [] ->
  fst (forward w) = Block /\
  dns_cache (snd (forward w)) = dns_cache w /\
  sent (snd (forward w)) = sent w ++ [(fd sock_send, data_request, upstream)].
Proof.
  intros Ht Hin.
  unfold make_request, bind, sendto, recvfrom, nothing_arrives. cbn.
  rewrite Hin, Ht. cbn. auto.
Qed.
End Forwarding.

Lemma get_response_info_empty {L : Libs} data response :
  parse data = Ok response -> rr response = [] ->
  get_response_info data = Err IndexError.
Proof.
  intros Hp Hrr. unfold get_response_info. now rewrite Hp, Hrr.
Qed.

Lemma get_response_info_first {L : Libs} data response first others :
  parse data = Ok response -> rr response = first :: others ->
  get_response_info data = Ok (ttl first, map rdata (rr response)).
Proof.
  intros Hp Hrr. unfold get_response_info. now rewrite Hp, Hrr.
Qed.

(** ** The listener *)

Section Listening.
Context {L : Libs}.

Local Notation body := (working_dns_body (socket_new listen_fd) (socket_new forward_fd)).

Lemma body_received (w : world) data from rest b d :
  inbox w listen_fd = Datagram data from :: rest ->
  firstn 1024 data = b :: d ->
  body w =
    bind (lift (get_request_info (b :: d)))
      (fun info =>
         bind get_cache (fun c =>
           bind
             (if cached (fst info) (snd info) c
              then
                bind (lift_key (lookup (fst info) (snd info) c)) (fun e =>
                  bind now (fun t =>
                    if t <? e_time_end e
                    then
                      bind (print (MsgFromCache (fst info) (snd info))) (fun _ =>
                        bind (prepare_dns_response (b :: d) (fst info) (snd info))
                          (fun response =>
                             sendto (settimeout (socket_new listen_fd) 5)
                               response from))
                    else
                      make_request (socket_new forward_fd)
                        (settimeout (socket_new listen_fd) 5) (b :: d)
                        (fst info) (snd info) from))
              else
                make_request (socket_new forward_fd)
                  (settimeout (socket_new listen_fd) 5) (b :: d)
                  (fst info) (snd info) from)
             (fun _ => ret Continue)))
      (taken rest w).
Proof.
  intros Hin Hd.
  unfold working_dns_body, try_except.
  unfold bind at 1. unfold bind at 1. unfold recvfrom. cbn.
  rewrite Hin. cbn. rewrite Hd. reflexivity.
Qed.

(** A datagram that does not parse: [DNSError] leaves the loop body. *)
Lemma body_malformed (w : world) data from rest :
  inbox w listen_fd = Datagram data from :: rest ->
  firstn 1024 data <> [] ->
  parse (firstn 1024 data) = Err DNSError ->
  body w = (Raise DNSError, taken rest w).
Proof.
  intros Hin Hne Hp.
  destruct (firstn 1024 data) as [|b d] eqn:Hd; [congruence|].
  rewrite (body_received w data from rest b d Hin Hd).
  unfold bind, get_request_info. rewrite Hp. reflexivity.
Qed.

Lemma cached_lookup domain_name q_type c :
  cached domain_name q_type c = true <->
  exists e, lookup domain_name q_type c = Some e.
Proof.
  unfold cached, lookup, dict_mem.
  destruct (dict_get domain_name c) as [inner|]; simpl.
  - destruct (dict_get q_type inner) as [e|]; split; eauto; try discriminate.
    intros [e He]. discriminate.
  - split; [discriminate | intros [e He]; discriminate].
Qed.
End Listening.

(** ** Answers from the cache: [prepare_dns_response] *)

Section Replay.
Context {L : Libs}.

Lemma add_answers_spec question domain_name q_type e (w : world) :
  lookup domain_name q_type (dns_cache w) = Some e ->
  forall r_data_list response,
    add_answers question domain_name q_type r_data_list response w =
      (Ret (mkRecord (header response) (questions response)
              (rr response ++ map (answer_for question e) r_data_list)), w).
Proof.
  intros Hl.
  induction r_data_list as [|r_data rest IH]; intros response.
  - simpl. unfold ret. rewrite app_nil_r. now destruct response.
  - simpl. unfold bind at 1. unfold get_cache.
    unfold bind at 1. rewrite Hl. simpl.
    rewrite IH. simpl. now rewrite <- app_assoc.
Qed.

Lemma prepare_dns_response_spec data_request domain_name q_type
    request question others e (w : world) :
  parse data_request = Ok request ->
  questions request = question :: others ->
  lookup domain_name q_type (dns_cache w) = Some e ->
  prepare_dns_response data_request domain_name q_type w =
    (Ret (pack (mkRecord (header request) [question]
                  (map (answer_for question e) (e_rdata e)))), w).
Proof.
  intros Hp Hq Hl.
  unfold prepare_dns_response. unfold bind at 1. rewrite Hp. simpl.
  rewrite Hq. unfold bind at 1. unfold get_cache.
  unfold bind at 1. rewrite Hl. simpl.
  unfold bind. rewrite (add_answers_spec question domain_name q_type e w Hl).
  reflexivity.
Qed.
End Replay.

(** ** The sweeper *)

Lemma set_reads_same (w : world) : set_reads (reads w) w = w.
Proof. now destruct w. Qed.

Lemma expired_at_app clk es1 : forall n es2,
  expired_at clk n (es1 ++ es2) =
  expired_at clk n es1 ++ expired_at clk (n + List.length es1) es2.
Proof.
  induction es1 as [|[[d q] e] rest IH]; intros n es2; simpl.
  - now rewrite Nat.add_0_r.
  - rewrite IH, <- app_assoc. now rewrite Nat.add_succ_r.
Qed.

Lemma in_expired_at clk d q es : forall n,
  In (d, q) (expired_at clk n es) <->
  exists i e, nth_error es i = Some (d, q, e) /\ e_time_end e <= clk (n + i)%nat.
Proof.
  induction es as [|[[d0 q0] e0] rest IH]; intros n; simpl.
  - split; [contradiction | intros (i & e & H & _); now destruct i].
  - rewrite in_app_iff, IH. split.
    + intros [H | (i & e & Hn & Hle)].
      * destruct (Z.leb_spec (e_time_end e0) (clk n)); [|contradiction].
        destruct H as [[= <- <-]|[]].
        exists O, e0. rewrite Nat.add_0_r. auto.
      * exists (S i), e. rewrite Nat.add_succ_r. auto.
    + intros (i & e & Hn & Hle). destruct i as [|i]; simpl in Hn.
      * injection Hn as <- <- <-. left. rewrite Nat.add_0_r in Hle.
        destruct (Z.leb_spec (e_time_end e0) (clk n)); [now left | lia].
      * right. exists i, e. rewrite Nat.add_succ_r in Hle. auto.
Qed.

Lemma expired_at_incl clk es : forall n x,
  In x (expired_at clk n es) -> In x (map (fun t => (fst (fst t), snd (fst t))) es).
Proof.
  induction es as [|[[d q] e] rest IH]; intros n x; simpl; [auto|].
  rewrite in_app_iff. intros [H|H].
  - destruct (e_time_end e <=? clk n); [|contradiction].
    destruct H as [<-|[]]. now left.
  - right. eauto.
Qed.

Lemma expired_at_nodup clk es : forall n,
  NoDup (map (fun t => (fst (fst t), snd (fst t))) es) ->
  NoDup (expired_at clk n es).
Proof.
  induction es as [|[[d q] e] rest IH]; intros n Hnd; simpl; [constructor|].
  simpl in Hnd. inversion Hnd as [|? ? Hx Hrest]; subst.
  destruct (e_time_end e <=? clk n); simpl; [|now apply IH].
  constructor; [|now apply IH].
  intros H. apply Hx. eapply expired_at_incl; eauto.
Qed.

Lemma lookup_in_entries d q e c :
  lookup d q c = Some e -> In (d, q, e) (entries c).
Proof.
  unfold lookup, entries. intros H.
  destruct (dict_get d c) as [inner|] eqn:E; [|discriminate].
  apply in_flat_map. exists (d, inner). split.
  - now apply dict_get_in.
  - simpl. change (d, q, e) with ((fun qe : string * entry => (d, fst qe, snd qe)) (q, e)).
    apply in_map. now apply dict_get_in.
Qed.

Lemma in_entries_lookup d q e c :
  wf_cache c -> In (d, q, e) (entries c) -> lookup d q c = Some e.
Proof.
  unfold lookup, entries. intros [Hwf Hall] H.
  apply in_flat_map in H as ([d0 inner] & Hin & H). simpl in H.
  apply in_map_iff in H as ([q0 e0] & [= -> -> ->] & Hqe).
  rewrite (in_dict_get _ _ _ Hwf Hin).
  apply in_dict_get; [|assumption].
  rewrite Forall_forall in Hall. exact (Hall _ Hin).
Qed.

Lemma entries_keys_nodup c :
  wf_cache c -> NoDup (map (fun t => (fst (fst t), snd (fst t))) (entries c)).
Proof.
  unfold wf_cache, wf_dict, entries.
  induction c as [|[d inner] rest IH]; simpl; intros [Hnd Hall]; [constructor|].
  inversion Hnd as [|? ? Hd Hrest]; subst.
  inversion Hall as [|? ? Hinner Hall']; subst. simpl in Hinner.
  rewrite map_app. apply NoDup_app.
  - rewrite map_map. simpl.
    clear - Hinner. unfold wf_dict, keys in Hinner.
    induction inner as [|[q e] inner IHi]; simpl; [constructor|].
    simpl in Hinner. inversion Hinner as [|? ? Hq Hi]; subst.
    constructor; [|auto].
    intros H. apply Hq. apply in_map_iff in H as ([q' e'] & [= ->] & H).
    change q with (fst (q, e')). now apply in_map.
  - now apply IH.
  - intros [d' q'] H1 H2. rewrite map_map in H1. simpl in H1.
    apply in_map_iff in H1 as (qe & E1 & _). injection E1 as Ed1 _.
    apply in_map_iff in H2 as ([[d2 q2] e2] & E2 & H2). simpl in E2.
    injection E2 as Ed2 _.
    apply in_flat_map in H2 as ([d3 inner3] & Hin3 & H3). simpl in H3.
    apply in_map_iff in H3 as (qe3 & E3 & _). injection E3 as Ed3 _ _.
    apply (in_map fst) in Hin3. simpl in Hin3.
    apply Hd. rewrite Ed1, <- Ed2, <- Ed3. exact Hin3.
Qed.

Lemma entries_index_unique (c : cache) i j d q e e' :
  wf_cache c ->
  nth_error (entries c) i = Some (d, q, e) ->
  nth_error (entries c) j = Some (d, q, e') ->
  i = j.
Proof.
  intros Hwf Hi Hj.
  pose proof (entries_keys_nodup c Hwf) as Hnd.
  rewrite NoDup_nth_error in Hnd. apply Hnd.
  - rewrite length_map. apply nth_error_Some. congruence.
  - now rewrite !nth_error_map, Hi, Hj.
Qed.

Section Sweeping.
Context {L : Libs}.

(** The scan only reads: it returns the expired keys and advances the
    clock by one reading per entry. *)
Lemma scan_types_spec domain_name (w : world) :
  forall (qes : dict entry) acc n,
    (forall q e, In (q, e) qes ->
                 lookup domain_name q (dns_cache w) = Some e) ->
    scan_types domain_name (keys qes) acc (set_reads n w) =
      (Ret (acc ++ expired_at (clock w) n
                     (map (fun qe => (domain_name, fst qe, snd qe)) qes)),
       set_reads (n + List.length qes) w).
Proof.
  induction qes as [|[q e] rest IH]; intros acc n Hall; simpl.
  - unfold ret. now rewrite app_nil_r, Nat.add_0_r.
  - unfold bind at 1. unfold get_cache. unfold bind at 1. cbn [dns_cache set_reads].
    rewrite (Hall q e (or_introl eq_refl)). simpl.
    unfold bind at 1. unfold now. cbn [clock reads set_reads].
    change (set_reads (S n) (set_reads n w)) with (set_reads (S n) w).
    rewrite IH by (intros; apply Hall; now right).
    rewrite Nat.add_succ_r. simpl.
    destruct (e_time_end e <=? clock w n); simpl;
      now rewrite <- ?app_assoc.
Qed.

Lemma scan_domains_spec (w : world) :
  forall (ds : cache) acc n,
    (forall d inner, In (d, inner) ds ->
       dict_get d (dns_cache w) = Some inner /\
       forall q e, In (q, e) inner -> lookup d q (dns_cache w) = Some e) ->
    scan_domains (keys ds) acc (set_reads n w) =
      (Ret (acc ++ expired_at (clock w) n (entries ds)),
       set_reads (n + List.length (entries ds)) w).
Proof.
  induction ds as [|[d inner] rest IH]; intros acc n Hall; simpl.
  - unfold ret. now rewrite app_nil_r, Nat.add_0_r.
  - destruct (Hall d inner (or_introl eq_refl)) as [Hget Hinner].
    unfold bind at 1. unfold get_cache. unfold bind at 1. cbn [dns_cache set_reads].
    rewrite Hget. simpl. unfold bind.
    rewrite (scan_types_spec d w inner acc n Hinner).
    rewrite IH by (intros; apply Hall; now right).
    rewrite expired_at_app, length_app, length_map, Nat.add_assoc.
    now rewrite <- app_assoc.
Qed.

Lemma scan_spec (w : world) :
  wf_cache (dns_cache w) ->
  scan_domains (keys (dns_cache w)) [] w =
    (Ret (expired_at (clock w) (reads w) (entries (dns_cache w))),
     set_reads (reads w + List.length (entries (dns_cache w))) w).
Proof.
  intros Hwf.
  assert (S := scan_domains_spec w (dns_cache w) [] (reads w)).
  rewrite set_reads_same in S. apply S.
  intros d inner Hin. destruct Hwf as [Hnd Hall]. split.
  - now apply in_dict_get.
  - intros q e Hqe. unfold lookup.
    rewrite (in_dict_get _ _ _ Hnd Hin).
    apply in_dict_get; [|assumption].
    rewrite Forall_forall in Hall. exact (Hall _ Hin).
Qed.

Lemma wf_cache_update d inner c :
  wf_cache c -> wf_dict inner -> wf_cache (dict_update d inner c).
Proof.
  unfold wf_cache, wf_dict. intros [Hnd Hall] Hi. split.
  - now rewrite keys_update.
  - clear Hnd. induction c as [|[d' v'] rest IH]; simpl; [constructor|].
    inversion Hall as [|? ? Hv Hrest]; subst.
    destruct (String.eqb d d'); constructor; auto.
Qed.

(** [del] of a present key returns and removes that key alone. *)
Lemma del_record_present d q e (w : world) :
  wf_cache (dns_cache w) ->
  lookup d q (dns_cache w) = Some e ->
  exists c',
    del_record d q w = (Ret tt, set_cache c' w) /\
    wf_cache c' /\
    lookup d q c' = None /\
    forall d' q', (d', q') <> (d, q) ->
                  lookup d' q' c' = lookup d' q' (dns_cache w).
Proof.
  intros Hwf Hl. unfold lookup in Hl.
  destruct (dict_get d (dns_cache w)) as [inner|] eqn:Hd; [|discriminate].
  destruct (dict_del_some _ _ _ Hl) as [inner' Hdel].
  assert (Hwi : wf_dict inner).
  { destruct Hwf as [_ Hall]. rewrite Forall_forall in Hall.
    exact (Hall _ (dict_get_in _ _ _ Hd)). }
  exists (dict_update d inner' (dns_cache w)).
  split; [|split; [|split]].
  - unfold del_record, bind, get_cache. rewrite Hd. simpl. now rewrite Hdel.
  - apply wf_cache_update; [assumption|]. eapply dict_del_wf; eauto.
  - unfold lookup. rewrite (dict_get_update_same _ _ _ _ Hd).
    eapply dict_get_del_same; eauto.
  - intros d' q' Hne. unfold lookup.
    destruct (String.eqb_spec d' d) as [->|Hdd].
    + rewrite (dict_get_update_same _ _ _ _ Hd), Hd.
      eapply dict_get_del_other; eauto. congruence.
    + now rewrite dict_get_update_other.
Qed.

(** [del] of an absent key raises [KeyError] and changes nothing. *)
Lemma del_record_absent d q (w : world) :
  lookup d q (dns_cache w) = None ->
  del_record d q w = (Raise KeyError, w).
Proof.
  unfold lookup, del_record, bind, get_cache. intros Hl.
  destruct (dict_get d (dns_cache w)) as [inner|]; [|reflexivity].
  simpl. now rewrite (dict_del_absent _ _ Hl).
Qed.
End Sweeping.

Section Removing.
Context {L : Libs}.

(** The second loop: every collected key is deleted, nothing else
    changes, and no [KeyError] is raised as long as the keys are
    distinct and present. *)
Lemma remove_records_spec : forall l (w : world),
  wf_cache (dns_cache w) ->
  NoDup l ->
  (forall d q, In (d, q) l -> exists e, lookup d q (dns_cache w) = Some e) ->
  exists w',
    remove_records l w = (Ret tt, w') /\
    wf_cache (dns_cache w') /\
    (forall d q, In (d, q) l -> lookup d q (dns_cache w') = None) /\
    (forall d q, ~ In (d, q) l ->
                 lookup d q (dns_cache w') = lookup d q (dns_cache w)) /\
    reads w' = reads w /\ clock w' = clock w.
Proof.
  induction l as [|[d q] rest IH]; intros w Hwf Hnd Hpres.
  - exists w. simpl. unfold ret.
    split; [reflexivity|]. split; [assumption|].
    split; [intros d q []|]. auto.
  - inversion Hnd as [|? ? Hx Hrest]; subst.
    destruct (Hpres d q (or_introl eq_refl)) as [e He].
    set (wp := set_stdout (stdout w ++ [MsgExpired d q]) w).
    destruct (del_record_present d q e wp Hwf He)
      as (c' & Hdel & Hwf' & Hgone & Hother).
    destruct (IH (set_cache c' wp)) as (w' & Hrun & Hwf'' & Hin & Hout & Hr & Hc).
    + exact Hwf'.
    + exact Hrest.
    + intros d0 q0 H0. cbn [dns_cache set_cache].
      rewrite Hother by (intros [= -> ->]; contradiction).
      apply Hpres. now right.
    + exists w'. split; [|split; [|split; [|split]]].
      * simpl. unfold bind at 1. unfold print. fold wp.
        unfold bind at 1. rewrite Hdel. exact Hrun.
      * exact Hwf''.
      * intros d0 q0 [[= <- <-]|H0]; [|now apply Hin].
        rewrite Hout by exact Hx. exact Hgone.
      * intros d0 q0 H0. rewrite Hout by (intros H; apply H0; now right).
        cbn [dns_cache set_cache]. rewrite Hother; [reflexivity|].
        intros [= -> ->]. apply H0. now left.
      * rewrite Hr, Hc. split; reflexivity.
Qed.
End Removing.

(** ** The controller and the interleaving *)





Lemma controller_events_in ev tr :
  In ev (controller_events tr) -> In ev tr.
Proof. unfold controller_events. intros H. now apply filter_In in H. Qed.

Lemma in_controller_events ev tr :
  In ev tr -> ev = EvFlagDown \/ ev = EvSnapshot \/ ev = EvExit ->
  In ev (controller_events tr).
Proof.
  unfold controller_events. intros H Hc. apply filter_In. split; [assumption|].
  destruct Hc as [->|[->| ->]]; reflexivity.
Qed.

Section Interleaving.
Context {L : Libs}.

Lemma in_order_started w : in_order (started w).
Proof. reflexivity. Qed.

Lemma in_order_step a s : in_order s -> in_order (step a s).
Proof.
  unfold in_order, controller_events. intros H.
  destruct a as [line| | |]; simpl.
  - destruct (ctl s) eqn:E; rewrite ?E; try exact H.
    destruct (String.eqb line "exit"); simpl; rewrite ?E; [|exact H].
    now rewrite H.
  - destruct (ctl s) eqn:E; simpl; rewrite ?E; try exact H; now rewrite H.
  - destruct (sweeper s); try exact H.
    destruct (running (sys_world s)); simpl; exact H.
  - destruct (listener s); try exact H.
    destruct (running (sys_world s)); simpl; [|exact H].
    destruct (fst (thread_round _ _)); simpl; exact H.
Qed.

Lemma in_order_run acts : forall s, in_order s -> in_order (run acts s).
Proof.
  unfold run.
  induction acts as [|a acts IH]; intros s H; simpl; [assumption|].
  apply IH. now apply in_order_step.
Qed.
End Interleaving.

(** * The claims *)

(** ** C1: expiry of a stored entry *)

(** C1.  The claim asks for [expiresAt = insertion time + ttl] with the ttl
    in seconds.  [make_request] adds [timedelta(milliseconds=ttl)]: the
    entry stored for a name and type not yet in the cache carries the
    decoded ttl and expires [ttl] milliseconds after the clock reading of
    the insertion, which for every positive ttl is strictly earlier than
    [ttl] seconds after it. *)
Theorem make_request_expiry_in_milliseconds {L : Libs}
    sock_send sock_rec data_request domain_name q_type address_request
    (w : world) data from rest response first others :
  inbox w (fd sock_send) = Datagram data from :: rest ->
  firstn 1024 data <> [] ->
  parse (firstn 1024 data) = Ok response ->
  rr response = first :: others ->
  lookup domain_name q_type (dns_cache w) = None ->
  exists e,
    lookup domain_name q_type
      (dns_cache (snd (make_request sock_send sock_rec data_request
                         domain_name q_type address_request w))) = Some e /\
    e_ttl e = ttl first /\
    e_time_end e = clock w (reads w) + timedelta_milliseconds (ttl first) /\
    (0 < ttl first ->
     e_time_end e < clock w (reads w) + timedelta_seconds (ttl first)).
Proof.
  intros Hin Hne Hp Hrr Hl.
  pose proof (get_response_info_first _ _ _ _ Hp Hrr) as Hinfo.
  destruct (make_request_decoded sock_send sock_rec data_request domain_name
              q_type address_request w data from rest _ _ Hin Hne Hinfo)
    as (_ & Hc & _).
  rewrite Hc. eexists. split; [now apply lookup_store_absent|].
  simpl. unfold timedelta_milliseconds, timedelta_seconds.
  repeat split. lia.
Qed.

(** The answer for [example.com.] with ttl 300, stored at time 0, expires
    at 300000 microseconds: 0.3 s, not 300 s. *)
Lemma ttl_300_expires_after_300_ms :
  exists e,
    lookup "example.com." "A"
      (dns_cache
         (snd (make_request (L := Sample.sample_libs)
                 (socket_new forward_fd) (socket_new listen_fd) Sample.query
                 "example.com." "A" Sample.client
                 (Sample.with_upstream [Datagram Sample.answer upstream]
                    (Sample.quiet 0))))) = Some e /\
    e_ttl e = 300 /\
    e_time_end e = 300000 /\
    (0 < 300 -> e_time_end e < 300000000).
Proof.
  apply (make_request_expiry_in_milliseconds (L := Sample.sample_libs)
           (socket_new forward_fd) (socket_new listen_fd) Sample.query
           "example.com." "A" Sample.client
           (Sample.with_upstream [Datagram Sample.answer upstream]
              (Sample.quiet 0))
           Sample.answer upstream [] Sample.answer_record
           (mkRR "example.com." 1 1 300 Sample.example_rdata) []).
  - reflexivity.
  - vm_compute. discriminate.
  - vm_compute. reflexivity.
  - reflexivity.
  - reflexivity.
Defined.

(** ** C2: an insertion for a key that is present *)

(** C2.  The claim asks that an insertion replaces the entry of a key that
    has one.  [make_request] inserts with [setdefault]: when the name and
    type already have an entry (the listener forwards exactly then when
    that entry is stale), the upstream answer is relayed but the old entry
    stays in the cache. *)
Theorem make_request_keeps_cached_entry {L : Libs}
    sock_send sock_rec data_request domain_name q_type address_request
    (w : world) data from rest response first others e_old :
  inbox w (fd sock_send) = Datagram data from :: rest ->
  firstn 1024 data <> [] ->
  parse (firstn 1024 data) = Ok response ->
  rr response = first :: others ->
  lookup domain_name q_type (dns_cache w) = Some e_old ->
  let r := make_request sock_send sock_rec data_request domain_name q_type
             address_request w in
  fst r = Ret tt /\
  lookup domain_name q_type (dns_cache (snd r)) = Some e_old /\
  In (fd sock_rec, firstn 1024 data, address_request) (sent (snd r)).
Proof.
  intros Hin Hne Hp Hrr Hl r.
  pose proof (get_response_info_first _ _ _ _ Hp Hrr) as Hinfo.
  destruct (make_request_decoded sock_send sock_rec data_request domain_name
              q_type address_request w data from rest _ _ Hin Hne Hinfo)
    as (Hr & Hc & Hs & _).
  subst r. rewrite Hc, Hs. split; [assumption|]. split.
  - now apply store_present.
  - apply in_or_app. right. simpl. auto.
Qed.

(** The entry of [example.com.] expired a second ago and holds another
    address; the fresh answer is relayed and thrown away. *)
Lemma stale_entry_survives_forwarding :
  let r := make_request (L := Sample.sample_libs)
             (socket_new forward_fd) (socket_new listen_fd) Sample.query
             "example.com." "A" Sample.client
             (set_cache (Sample.cache_with Sample.old_entry)
                (Sample.with_upstream [Datagram Sample.answer upstream]
                   (Sample.quiet 0))) in
  fst r = Ret tt /\
  lookup "example.com." "A" (dns_cache (snd r)) = Some Sample.old_entry /\
  In (listen_fd, firstn 1024 Sample.answer, Sample.client) (sent (snd r)).
Proof.
  apply (make_request_keeps_cached_entry (L := Sample.sample_libs)
           (socket_new forward_fd) (socket_new listen_fd) Sample.query
           "example.com." "A" Sample.client
           (set_cache (Sample.cache_with Sample.old_entry)
              (Sample.with_upstream [Datagram Sample.answer upstream]
                 (Sample.quiet 0)))
           Sample.answer upstream [] Sample.answer_record
           (mkRR "example.com." 1 1 300 Sample.example_rdata) []).
  - reflexivity.
  - vm_compute. discriminate.
  - vm_compute. reflexivity.
  - reflexivity.
  - reflexivity.
Defined.

(** ** C7: an answer without records *)

(** C7, as the code has it.  For every upstream reply that decodes to an
    empty record list, [get_response_info] raises [IndexError] inside the
    [try]: no entry is written into the cache, the handler prints its
    message, and nothing is sent to the client; the only datagram sent is
    the query to the upstream. *)
Theorem make_request_empty_answer {L : Libs}
    sock_send sock_rec data_request domain_name q_type address_request
    (w : world) data from rest response :
  inbox w (fd sock_send) = Datagram data from :: rest ->
  firstn 1024 data <> [] ->
  parse (firstn 1024 data) = Ok response ->
  rr response = [] ->
  let r := make_request sock_send sock_rec data_request domain_name q_type
             address_request w in
  fst r = Ret tt /\
  dns_cache (snd r) = dns_cache w /\
  sent (snd r) = sent w ++ [(fd sock_send, data_request, upstream)] /\
  stdout (snd r) = stdout w ++ [MsgBadRequest].
Proof.
  intros Hin Hne Hp Hrr r.
  pose proof (get_response_info_empty _ _ Hp Hrr) as Hinfo.
  exact (make_request_rejected sock_send sock_rec data_request domain_name
           q_type address_request w data from rest _ Hin Hne Hinfo).
Qed.

Lemma make_request_empty_answer_example :
  let r := make_request (L := Sample.sample_libs)
             (socket_new forward_fd) (socket_new listen_fd) Sample.query
             "example.com." "A" Sample.client
             (Sample.with_upstream [Datagram Sample.answer_empty upstream]
                (Sample.quiet 0)) in
  fst r = Ret tt /\
  dns_cache (snd r) = [] /\
  sent (snd r) = [] ++ [(forward_fd, Sample.query, upstream)] /\
  stdout (snd r) = [] ++ [MsgBadRequest].
Proof.
  apply (make_request_empty_answer (L := Sample.sample_libs)
           (socket_new forward_fd) (socket_new listen_fd) Sample.query
           "example.com." "A" Sample.client
           (Sample.with_upstream [Datagram Sample.answer_empty upstream]
              (Sample.quiet 0))
           Sample.answer_empty upstream [] Sample.answer_empty_record).
  - reflexivity.
  - vm_compute. discriminate.
  - vm_compute. reflexivity.
  - reflexivity.
Defined.

(** C7 as stated fails: the upstream answers with a well-formed message
    that has no record; the reply decodes, its record list is empty, and
    the raw bytes are not relayed to the client. *)
Lemma empty_answer_is_not_relayed :
  let r := make_request (L := Sample.sample_libs)
             (socket_new forward_fd) (socket_new listen_fd) Sample.query
             "example.com." "A" Sample.client
             (Sample.with_upstream [Datagram Sample.answer_empty upstream]
                (Sample.quiet 0)) in
  (exists response,
     @parse Sample.sample_libs Sample.answer_empty = Ok response /\
     rr response = []) /\
  ~ In (listen_fd, Sample.answer_empty, Sample.client) (sent (snd r)).
Proof.
  split.
  - exists Sample.answer_empty_record. split; reflexivity.
  - vm_compute. intros [H|[]]. discriminate.
Qed.

(** ** C3: a datagram that does not decode *)

(** C3.  The claim asks that a datagram which cannot be decoded is dropped
    and the loop goes on.  In [working_dns] the call of [get_request_info]
    stands outside every [try] that would catch a [DNSError]: the
    exception leaves the loop body, is not a socket error and so leaves
    [working_dns] as well; the datagrams still waiting are never served.
    Nothing is sent to the client. *)
Theorem working_dns_dies_on_malformed_datagram {L : Libs}
    (w : world) data from rest fuel :
  running w = true ->
  inbox w listen_fd = Datagram data from :: rest ->
  firstn 1024 data <> [] ->
  parse (firstn 1024 data) = Err DNSError ->
  let r := working_dns (S fuel) w in
  fst r = Raise DNSError /\
  sent (snd r) = sent w /\
  inbox (snd r) listen_fd = rest.
Proof.
  intros Hrun Hin Hne Hp r.
  assert (E : r = (Raise DNSError, taken rest w)).
  { subst r. unfold working_dns, try_except. cbv zeta. cbn [serve].
    unfold bind at 1. unfold get_running. rewrite Hrun.
    unfold bind at 1. rewrite (body_malformed w data from rest Hin Hne Hp).
    reflexivity. }
  rewrite E. repeat split; reflexivity.
Qed.

(** One byte, then a good query: the thread ends on the first and the
    query is never answered. *)
Lemma garbage_datagram_ends_listener :
  let r := working_dns (L := Sample.sample_libs) 2
             (Sample.with_clients
                [Datagram Sample.garbage Sample.client;
                 Datagram Sample.query Sample.client]
                (Sample.with_upstream [Datagram Sample.answer upstream]
                   (Sample.quiet 0))) in
  fst r = Raise DNSError /\
  sent (snd r) = [] /\
  inbox (snd r) listen_fd = [Datagram Sample.query Sample.client].
Proof.
  apply (working_dns_dies_on_malformed_datagram (L := Sample.sample_libs)
           (Sample.with_clients
              [Datagram Sample.garbage Sample.client;
               Datagram Sample.query Sample.client]
              (Sample.with_upstream [Datagram Sample.answer upstream]
                 (Sample.quiet 0)))
           Sample.garbage Sample.client
           [Datagram Sample.query Sample.client] 1).
  - reflexivity.
  - reflexivity.
  - vm_compute. discriminate.
  - vm_compute. reflexivity.
Defined.

(** ** C6: waiting for the upstream *)

Lemma body_blocks_on_silent_upstream {L : Libs}
    (w : world) data from rest domain_name q_type :
  inbox w listen_fd = Datagram data from :: rest ->
  firstn 1024 data <> [] ->
  get_request_info (firstn 1024 data) = Ok (domain_name, q_type) ->
  lookup domain_name q_type (dns_cache w) = None ->
  inbox w forward_fd = [] ->
  fst (working_dns_body (socket_new listen_fd) (socket_new forward_fd) w) = Block.
Proof.
  intros Hin Hne Hinfo Hl Hup.
  destruct (firstn 1024 data) as [|b d] eqn:Hd; [congruence|].
  rewrite (body_received w data from rest b d Hin Hd).
  unfold bind at 1. rewrite Hinfo. cbn [lift ret fst snd].
  unfold bind at 1. unfold get_cache. cbn [dns_cache taken set_inbox].
  assert (Hc : cached domain_name q_type (dns_cache w) = false).
  { destruct (cached domain_name q_type (dns_cache w)) eqn:E; [|reflexivity].
    apply cached_lookup in E as [e He]. congruence. }
  rewrite Hc. unfold bind.
  destruct (make_request_silent (socket_new forward_fd)
              (settimeout (socket_new listen_fd) 5) (b :: d) domain_name q_type
              from (taken rest w) eq_refl Hup) as (Hb & _).
  destruct (make_request _ _ _ _ _ _ _) as [o w2]. simpl in Hb. now subst o.
Qed.

(** C6, as the code has it.  The wait for the upstream reply is not
    bounded: the forwarding socket is created blocking and no timeout is
    ever set on it, so when a query that is not in the cache is forwarded
    and the upstream never replies, [recvfrom] does not return and the
    listener never gets to its next round. *)
Theorem working_dns_blocks_on_silent_upstream {L : Libs}
    (w : world) data from rest domain_name q_type fuel :
  running w = true ->
  inbox w listen_fd = Datagram data from :: rest ->
  firstn 1024 data <> [] ->
  get_request_info (firstn 1024 data) = Ok (domain_name, q_type) ->
  lookup domain_name q_type (dns_cache w) = None ->
  inbox w forward_fd = [] ->
  fst (working_dns (S fuel) w) = Block.
Proof.
  intros Hrun Hin Hne Hinfo Hl Hup.
  pose proof (body_blocks_on_silent_upstream w data from rest domain_name
                q_type Hin Hne Hinfo Hl Hup) as Hb.
  unfold working_dns, try_except. cbv zeta. cbn [serve].
  unfold bind at 1. unfold get_running. rewrite Hrun.
  unfold bind at 1.
  destruct (working_dns_body _ _ w) as [o w2]. simpl in Hb. subst o.
  reflexivity.
Qed.

Lemma working_dns_blocks_example :
  fst (working_dns (L := Sample.sample_libs) 1
         (Sample.with_clients [Datagram Sample.query Sample.client]
            (Sample.quiet 0))) = Block.
Proof.
  apply (working_dns_blocks_on_silent_upstream (L := Sample.sample_libs)
           (Sample.with_clients [Datagram Sample.query Sample.client]
              (Sample.quiet 0))
           Sample.query Sample.client [] "example.com." "A" 0).
  - reflexivity.
  - reflexivity.
  - vm_compute. discriminate.
  - vm_compute. reflexivity.
  - reflexivity.
  - reflexivity.
Defined.

(** C6 as stated fails: a query is forwarded, the upstream stays silent,
    and the forwarding call never returns, whereas the same silence on a
    socket with a timeout raises [TimeoutError]. *)
Lemma silent_upstream_blocks_forever :
  fst (make_request (L := Sample.sample_libs)
         (socket_new forward_fd) (socket_new listen_fd) Sample.query
         "example.com." "A" Sample.client (Sample.quiet 0)) = Block /\
  fst (make_request (L := Sample.sample_libs)
         (settimeout (socket_new forward_fd) 5) (socket_new listen_fd)
         Sample.query "example.com." "A" Sample.client (Sample.quiet 0))
    = Raise TimeoutError.
Proof. split; reflexivity. Qed.

(** ** C4: reading the snapshot *)

(** C4, as the code has it.  [read_cache] recovers from one failure only:
    when the snapshot file exists and unpickling it ends with [EOFError]
    (an empty file, or a pickle cut off where the next opcode is due), it
    returns an empty cache.  A missing file makes [open] raise
    [FileNotFoundError] before the [try] is entered, and an unpickling
    error other than [EOFError] (contents that are no pickle) is raised to
    the caller.  What [read_cache] raises, the constructor raises before
    any thread is started: the process does not start. *)
Theorem read_cache_recovers_end_of_input_only {L : Libs}
    (fs : string -> option bytes) (path_file : string) :
  (forall data,
     fs path_file = Some data -> pickle_loads data = Err EOFError ->
     read_cache fs path_file = Ok []) /\
  (fs path_file = None -> read_cache fs path_file = Err FileNotFoundError) /\
  (forall data e,
     fs path_file = Some data -> pickle_loads data = Err e -> e <> EOFError ->
     read_cache fs path_file = Err e) /\
  (forall data c,
     fs path_file = Some data -> pickle_loads data = Ok c ->
     read_cache fs path_file = Ok c) /\
  (forall (w : world) e,
     read_cache (files w) "dns_cache.pickle" = Err e -> boot w = Err e) /\
  (forall (w : world) c,
     read_cache (files w) "dns_cache.pickle" = Ok c ->
     boot w = Ok (started (set_cache c w))).
Proof.
  unfold boot, read_cache. repeat split.
  - intros data -> ->. reflexivity.
  - intros ->. reflexivity.
  - intros data e -> -> Hne. destruct e; congruence.
  - intros data c -> ->. reflexivity.
  - intros w e ->. reflexivity.
  - intros w c ->. reflexivity.
Qed.

(** An empty file, a pickle cut off after its PROTO opcode, no file, a
    file of one zero byte, the pickle of [{}]; and the start of the
    server without a file and with an empty one. *)
Lemma read_cache_cases :
  let fs (content : option bytes) : string -> option bytes :=
    fun p => if String.eqb p "dns_cache.pickle" then content else None in
  read_cache (L := Sample.sample_libs) (fs (Some [])) "dns_cache.pickle" = Ok [] /\
  read_cache (L := Sample.sample_libs) (fs (Some [x80; x04])) "dns_cache.pickle"
    = Ok [] /\
  read_cache (L := Sample.sample_libs) (fs None) "dns_cache.pickle"
    = Err FileNotFoundError /\
  read_cache (L := Sample.sample_libs) (fs (Some [x00])) "dns_cache.pickle"
    = Err UnpicklingError /\
  read_cache (L := Sample.sample_libs) (fs (Some Sample.empty_pickle))
    "dns_cache.pickle" = Ok [] /\
  boot (L := Sample.sample_libs) (set_files (fs None) (Sample.quiet 0))
    = Err FileNotFoundError /\
  boot (L := Sample.sample_libs) (set_files (fs (Some [x00])) (Sample.quiet 0))
    = Err UnpicklingError /\
  boot (L := Sample.sample_libs) (set_files (fs (Some [])) (Sample.quiet 0))
    = Ok (started (set_cache [] (set_files (fs (Some [])) (Sample.quiet 0)))).
Proof.
  intros fs.
  destruct (read_cache_recovers_end_of_input_only (L := Sample.sample_libs)
              (fs (Some [])) "dns_cache.pickle") as (H1 & _ & _ & _ & _ & H6).
  destruct (read_cache_recovers_end_of_input_only (L := Sample.sample_libs)
              (fs (Some [x80; x04])) "dns_cache.pickle") as (H1' & _).
  destruct (read_cache_recovers_end_of_input_only (L := Sample.sample_libs)
              (fs None) "dns_cache.pickle") as (_ & H2 & _ & _ & H5 & _).
  destruct (read_cache_recovers_end_of_input_only (L := Sample.sample_libs)
              (fs (Some [x00])) "dns_cache.pickle") as (_ & _ & H3 & _).
  destruct (read_cache_recovers_end_of_input_only (L := Sample.sample_libs)
              (fs (Some Sample.empty_pickle)) "dns_cache.pickle")
    as (_ & _ & _ & H4 & _).
  assert (E1 := H1 [] eq_refl eq_refl).
  assert (E2 := H2 eq_refl).
  assert (E3 : read_cache (L := Sample.sample_libs) (fs (Some [x00]))
                 "dns_cache.pickle" = Err UnpicklingError)
    by (apply (H3 [x00] UnpicklingError eq_refl eq_refl); discriminate).
  split; [exact E1|].
  split; [exact (H1' [x80; x04] eq_refl eq_refl)|].
  split; [exact E2|].
  split; [exact E3|].
  split; [exact (H4 Sample.empty_pickle [] eq_refl eq_refl)|].
  split; [exact (H5 (set_files (fs None) (Sample.quiet 0)) _ E2)|].
  split; [exact (H5 (set_files (fs (Some [x00])) (Sample.quiet 0)) _ E3)|].
  exact (H6 (set_files (fs (Some [])) (Sample.quiet 0)) _ E1).
Defined.

(** C4 as stated fails: without a snapshot file, and with a file that is
    not a pickle, loading raises instead of returning an empty cache. *)
Lemma read_cache_raises_on_missing_or_corrupt_file :
  read_cache (L := Sample.sample_libs) (fun _ => None) "dns_cache.pickle"
    = Err FileNotFoundError /\
  read_cache (L := Sample.sample_libs) (fun _ => Some [x00]) "dns_cache.pickle"
    = Err UnpicklingError /\
  boot (L := Sample.sample_libs) (Sample.quiet 0) = Err FileNotFoundError.
Proof. repeat split; reflexivity. Qed.

(** ** C10: the answer built from the cache *)

(** C10.  When the request parses, has a question, and the cache holds an
    entry under the given name and type, [prepare_dns_response] returns
    the packed form of a record that has the header of the request, the
    first question of the request, and one answer per cached payload, in
    the cached order: every answer carries the name and the type of that
    question and the single ttl of the entry, whatever name and type the
    payloads came with. *)
Theorem prepare_dns_response_replays_cache {L : Libs}
    data_request domain_name q_type request question others e (w : world) :
  parse data_request = Ok request ->
  questions request = question :: others ->
  lookup domain_name q_type (dns_cache w) = Some e ->
  exists response,
    prepare_dns_response data_request domain_name q_type w
      = (Ret (pack response), w) /\
    header response = header request /\
    questions response = [question] /\
    map rdata (rr response) = e_rdata e /\
    Forall (fun a => rname a = qname question /\
                     rtype a = qtype question /\
                     ttl a = e_ttl e) (rr response).
Proof.
  intros Hp Hq Hl.
  exists (mkRecord (header request) [question]
            (map (answer_for question e) (e_rdata e))).
  split; [now apply prepare_dns_response_spec with (others := others)|].
  simpl. repeat split.
  - rewrite map_map. simpl. apply map_id.
  - apply Forall_forall. intros a Ha.
    apply in_map_iff in Ha as (r_data & <- & _). simpl. auto.
Qed.

(** The cache holds an entry that came from elsewhere (another address,
    ttl 60); the answer to the query for [example.com.] carries the
    question's name and type and ttl 60. *)
Lemma prepare_dns_response_example :
  exists response,
    prepare_dns_response (L := Sample.sample_libs) Sample.query
      "example.com." "A" (set_cache (Sample.cache_with Sample.old_entry)
                            (Sample.quiet 0))
      = (Ret (@pack Sample.sample_libs response),
         set_cache (Sample.cache_with Sample.old_entry) (Sample.quiet 0)) /\
    header response = mkHeader 4660 256 /\
    questions response = [Sample.example_question] /\
    map rdata (rr response) = [[x0a; x00; x00; x01]] /\
    Forall (fun a => rname a = "example.com." /\ rtype a = 1 /\ ttl a = 60)
      (rr response).
Proof.
  apply (prepare_dns_response_replays_cache (L := Sample.sample_libs)
           Sample.query "example.com." "A" Sample.query_record
           Sample.example_question [] Sample.old_entry
           (set_cache (Sample.cache_with Sample.old_entry) (Sample.quiet 0))).
  - vm_compute. reflexivity.
  - reflexivity.
  - reflexivity.
Defined.

(** ** C9: deleting twice *)

Ltac solve_wf :=
  split; repeat constructor; simpl; intuition discriminate.

(** C9, as the code has it.  After [del self.dns_cache[domain_name][q_type]]
    has succeeded, the same statement once more finds the key absent: it
    raises [KeyError] and leaves the cache as the first one left it. *)
Theorem del_record_twice domain_name q_type (w w1 : world) :
  wf_cache (dns_cache w) ->
  del_record domain_name q_type w = (Ret tt, w1) ->
  del_record domain_name q_type w1 = (Raise KeyError, w1).
Proof.
  intros Hwf Hdel.
  destruct (lookup domain_name q_type (dns_cache w)) as [e|] eqn:Hl.
  - destruct (del_record_present domain_name q_type e w Hwf Hl)
      as (c' & Hdel' & _ & Hgone & _).
    rewrite Hdel' in Hdel. injection Hdel as <-.
    now apply del_record_absent.
  - rewrite (del_record_absent domain_name q_type w Hl) in Hdel. discriminate.
Qed.

Lemma del_record_twice_example :
  let w := set_cache Sample.two_entries (Sample.quiet 0) in
  let w1 := snd (del_record "example.com." "AAAA" w) in
  dns_cache w1 = [("example.com.", [("A", Sample.entry_a)])] /\
  del_record "example.com." "AAAA" w1 = (Raise KeyError, w1).
Proof.
  intros w w1. split; [reflexivity|].
  apply (del_record_twice "example.com." "AAAA" w w1).
  - solve_wf.
  - reflexivity.
Defined.

(** C9 as stated fails: the second removal of a key raises. *)
Lemma second_del_raises_key_error :
  let w := set_cache Sample.two_entries (Sample.quiet 0) in
  fst (del_record "example.com." "AAAA" w) = Ret tt /\
  fst (del_record "example.com." "AAAA"
         (snd (del_record "example.com." "AAAA" w))) = Raise KeyError.
Proof. split; reflexivity. Qed.

(** ** C8: one pass of the sweeper *)

(** C8, as the code has it.  The clock is read once per entry, not once
    per pass: the [i]-th entry in iteration order is compared with the
    [i]-th reading of the pass and removed exactly when its expiry is at or
    before that reading.  So, for a pass that runs alone on a cache and a
    clock that never goes back: afterwards no entry whose expiry is at or
    before the start of the pass remains, every entry whose expiry is
    later than the time at which the pass ends is still there unchanged,
    the pass adds nothing, and an entry that was fresh at the start but
    has expired by the reading taken for it is removed. *)
Theorem sweep_pass_correct (w : world) :
  wf_cache (dns_cache w) ->
  monotone (clock w) ->
  exists w',
    sweep_pass w = (Ret tt, w') /\
    (forall d q e,
       lookup d q (dns_cache w) = Some e ->
       e_time_end e <= clock w (reads w) ->
       lookup d q (dns_cache w') = None) /\
    (forall d q e,
       lookup d q (dns_cache w) = Some e ->
       clock w (reads w') < e_time_end e ->
       lookup d q (dns_cache w') = Some e) /\
    (forall d q e,
       lookup d q (dns_cache w') = Some e ->
       lookup d q (dns_cache w) = Some e) /\
    (forall i d q e,
       nth_error (entries (dns_cache w)) i = Some (d, q, e) ->
       lookup d q (dns_cache w') =
         if e_time_end e <=? clock w (reads w + i)%nat then None else Some e) /\
    (forall i d q e,
       nth_error (entries (dns_cache w)) i = Some (d, q, e) ->
       clock w (reads w) < e_time_end e ->
       e_time_end e <= clock w (reads w + i)%nat ->
       lookup d q (dns_cache w') = None).
Proof.
  intros Hwf Hmono.
  set (l := expired_at (clock w) (reads w) (entries (dns_cache w))).
  set (w1 := set_reads (reads w + List.length (entries (dns_cache w))) w).
  destruct (remove_records_spec l w1) as (w' & Hrun & _ & Hin & Hout & Hr & _).
  - exact Hwf.
  - apply expired_at_nodup. now apply entries_keys_nodup.
  - intros d q H. apply in_expired_at in H as (i & e & Hn & _).
    exists e. apply in_entries_lookup; [exact Hwf|].
    eapply nth_error_In; eauto.
  - assert (Hlaw : forall i d q e,
              nth_error (entries (dns_cache w)) i = Some (d, q, e) ->
              lookup d q (dns_cache w') =
                if e_time_end e <=? clock w (reads w + i)%nat
                then None else Some e).
    { intros i d q e Hi.
      assert (Hl : lookup d q (dns_cache w) = Some e).
      { apply in_entries_lookup; [exact Hwf|]. eapply nth_error_In; eauto. }
      destruct (Z.leb_spec (e_time_end e) (clock w (reads w + i)%nat))
        as [Hle|Hgt].
      - apply Hin. apply in_expired_at. eauto.
      - rewrite Hout; [exact Hl|].
        intros H. apply in_expired_at in H as (j & e' & Hj & Hle).
        assert (i = j)
          by exact (entries_index_unique (dns_cache w) i j d q e e' Hwf Hi Hj).
        subst j. assert (e' = e) by congruence. subst e'. lia. }
    exists w'. split; [|split; [|split; [|split; [|split]]]].
    + unfold sweep_pass. unfold bind at 1. unfold get_cache.
      unfold bind. rewrite (scan_spec w Hwf). exact Hrun.
    + intros d q e Hl Hle. apply Hin. apply in_expired_at.
      apply lookup_in_entries in Hl. apply In_nth_error in Hl as [i Hi].
      exists i, e. split; [assumption|].
      assert (clock w (reads w) <= clock w (reads w + i)%nat)
        by (apply Hmono; lia).
      lia.
    + intros d q e Hl Hlt. rewrite Hout; [exact Hl|].
      intros H. apply in_expired_at in H as (i & e' & Hn & Hle).
      assert (He : lookup d q (dns_cache w) = Some e').
      { apply in_entries_lookup; [exact Hwf|]. eapply nth_error_In; eauto. }
      assert (e' = e) by congruence. subst e'.
      assert (Hi : (i < List.length (entries (dns_cache w)))%nat).
      { apply nth_error_Some. congruence. }
      assert (clock w (reads w + i)%nat <= clock w (reads w')).
      { apply Hmono. rewrite Hr. unfold w1. cbn [reads set_reads]. lia. }
      lia.
    + intros d q e Hl.
      assert (Hdec : forall x y : string * string, {x = y} + {x <> y})
        by (decide equality; apply string_dec).
      destruct (in_dec Hdec (d, q) l) as [H|H].
      * rewrite (Hin d q H) in Hl. discriminate.
      * rewrite (Hout d q H) in Hl. exact Hl.
    + exact Hlaw.
    + intros i d q e Hi _ Hle. rewrite (Hlaw i d q e Hi).
      apply Z.leb_le in Hle. now rewrite Hle.
Qed.

(** Three entries at time 0, the clock reading 0 s, 1 s, 2 s: the A entry
    of [example.com.] (expiry 10 s) is examined first and stays; its AAAA
    entry (expiry 0.5 s) was fresh at the start, is examined at 1 s and
    goes; the entry of [example.org.] expired before the start and goes. *)
Lemma sweep_pass_example :
  exists w',
    sweep_pass (set_cache Sample.three_entries (Sample.quiet 0)) = (Ret tt, w') /\
    lookup "example.org." "A" (dns_cache w') = None /\
    lookup "example.com." "A" (dns_cache w') = Some Sample.entry_a /\
    lookup "example.com." "AAAA" (dns_cache w') = None /\
    (forall d q e,
       lookup d q (dns_cache w') = Some e ->
       lookup d q Sample.three_entries = Some e).
Proof.
  destruct (sweep_pass_correct
              (set_cache Sample.three_entries (Sample.quiet 0)))
    as (w' & Hrun & Hexpired & _ & Hsub & Hlaw & Hmid).
  - solve_wf.
  - intros i j Hij. cbv [set_cache Sample.quiet clock]. lia.
  - exists w'. split; [exact Hrun|].
    split; [|split; [|split]].
    + apply (Hexpired "example.org." "A" Sample.old_entry);
        [reflexivity | vm_compute; discriminate].
    + exact (Hlaw 0%nat "example.com." "A" Sample.entry_a eq_refl).
    + apply (Hmid 1%nat "example.com." "AAAA" Sample.entry_aaaa);
        [reflexivity | reflexivity | vm_compute; discriminate].
    + exact Hsub.
Defined.

(** C8 as stated fails: the AAAA entry expires at 0.5 s and is fresh when
    the pass starts at time 0; the A entry is examined first, the clock
    reads 1 s when the AAAA entry is examined, and the pass removes it. *)
Lemma sweep_removes_entry_fresh_at_start :
  let w := set_cache Sample.two_entries (Sample.quiet 0) in
  lookup "example.com." "AAAA" (dns_cache w) = Some Sample.entry_aaaa /\
  clock w (reads w) < e_time_end Sample.entry_aaaa /\
  fst (sweep_pass w) = Ret tt /\
  lookup "example.com." "AAAA" (dns_cache (snd (sweep_pass w))) = None.
Proof. repeat split; reflexivity. Qed.

(** ** C5: the order of the shutdown *)




(** The whole shutdown: the threads see the flag at their next loop check,
    after the snapshot and the exit. *)
Example shutdown_run :
  trace (run (L := Sample.sample_libs)
           [ActSweeper; ActInput "exit"; ActController; ActController;
            ActSweeper; ActListener]
           (started (Sample.quiet 0)))
  = [EvListenerLeft; EvSweeperLeft; EvExit; EvSnapshot; EvFlagDown].
Proof. reflexivity. Qed.


(** * Further properties of the code *)

(** ** What a computation leaves alone *)

Section Keeps.
Variable R : world -> world -> Prop.
Hypothesis R_refl : forall w, R w w.
Hypothesis R_trans : forall w1 w2 w3, R w1 w2 -> R w2 w3 -> R w1 w3.

Lemma keeps_ret {A} (a : A) : keeps R (ret a).
Proof. intros w. apply R_refl. Qed.

Lemma keeps_raise {A} (e : exn) : keeps R (@raise A e).
Proof. intros w. apply R_refl. Qed.

Lemma keeps_lift {A} (r : result A) : keeps R (lift r).
Proof. destruct r; [apply keeps_ret | apply keeps_raise]. Qed.

Lemma keeps_lift_key {A} (o : option A) : keeps R (lift_key o).
Proof. destruct o; [apply keeps_ret | apply keeps_raise]. Qed.

Lemma keeps_bind {A B} (m : M A) (f : A -> M B) :
  keeps R m -> (forall a, keeps R (f a)) -> keeps R (bind m f).
Proof.
  intros Hm Hf w. unfold bind. specialize (Hm w).
  destruct (m w) as [[a|e|] w1]; simpl in *; try assumption.
  eapply R_trans; [exact Hm | apply Hf].
Qed.

Lemma keeps_try_except {A} (m h : M A) handles :
  keeps R m -> keeps R h -> keeps R (try_except m handles h).
Proof.
  intros Hm Hh w. unfold try_except. specialize (Hm w).
  destruct (m w) as [[a|e|] w1]; simpl in *; try assumption.
  destruct (handles e); simpl; [|assumption].
  eapply R_trans; [exact Hm | apply Hh].
Qed.

Lemma keeps_get_cache : keeps R get_cache.
Proof. intros w. apply R_refl. Qed.

Lemma keeps_get_running : keeps R get_running.
Proof. intros w. apply R_refl. Qed.

(** The sweeper uses the cache, the clock and the console only. *)
Hypothesis keeps_put_cache : forall c, keeps R (put_cache c).
Hypothesis keeps_now : keeps R now.
Hypothesis keeps_print : forall m, keeps R (print m).

Lemma keeps_scan_types domain_name q_types :
  forall acc, keeps R (scan_types domain_name q_types acc).
Proof.
  induction q_types as [|q rest IH]; intros acc; simpl.
  - apply keeps_ret.
  - apply keeps_bind; [apply keeps_get_cache|]. intros c.
    apply keeps_bind; [apply keeps_lift_key|]. intros e.
    apply keeps_bind; [apply keeps_now|]. intros t. apply IH.
Qed.

Lemma keeps_scan_domains domain_names :
  forall acc, keeps R (scan_domains domain_names acc).
Proof.
  induction domain_names as [|d rest IH]; intros acc; simpl.
  - apply keeps_ret.
  - apply keeps_bind; [apply keeps_get_cache|]. intros c.
    apply keeps_bind; [apply keeps_lift_key|]. intros inner.
    apply keeps_bind; [apply keeps_scan_types|]. intros l. apply IH.
Qed.

Lemma keeps_del_record domain_name q_type :
  keeps R (del_record domain_name q_type).
Proof.
  unfold del_record.
  apply keeps_bind; [apply keeps_get_cache|]. intros c.
  apply keeps_bind; [apply keeps_lift_key|]. intros inner.
  apply keeps_bind; [apply keeps_lift_key|]. intros inner'.
  apply keeps_put_cache.
Qed.

Lemma keeps_remove_records l : keeps R (remove_records l).
Proof.
  induction l as [|[d q] rest IH]; simpl.
  - apply keeps_ret.
  - apply keeps_bind; [apply keeps_print|]. intros _.
    apply keeps_bind; [apply keeps_del_record|]. intros _. apply IH.
Qed.

Lemma keeps_sweep_pass : keeps R sweep_pass.
Proof.
  unfold sweep_pass.
  apply keeps_bind; [apply keeps_get_cache|]. intros c.
  apply keeps_bind; [apply keeps_scan_domains|]. intros l.
  apply keeps_remove_records.
Qed.
End Keeps.

Lemma same_env_refl w : same_env w w.
Proof. repeat split. Qed.

Lemma same_env_trans w1 w2 w3 :
  same_env w1 w2 -> same_env w2 w3 -> same_env w1 w3.
Proof.
  unfold same_env. intros (A1 & B1 & C1) (A2 & B2 & C2).
  repeat split; congruence.
Qed.

Lemma same_network_refl w : same_network w w.
Proof. split; reflexivity. Qed.

Lemma same_network_trans w1 w2 w3 :
  same_network w1 w2 -> same_network w2 w3 -> same_network w1 w3.
Proof.
  unfold same_network. intros (A1 & B1) (A2 & B2). split; congruence.
Qed.

(** ** More on the sweeper *)

Lemma keys_after_del_record domain_name q_type (w : world) :
  keys (dns_cache (snd (del_record domain_name q_type w))) = keys (dns_cache w).
Proof.
  unfold del_record, bind, get_cache.
  destruct (dict_get domain_name (dns_cache w)) as [inner|]; [|reflexivity].
  simpl. destruct (dict_del q_type inner) as [inner'|]; [|reflexivity].
  simpl. apply keys_update.
Qed.

Lemma keys_after_remove_records l : forall w : world,
  keys (dns_cache (snd (remove_records l w))) = keys (dns_cache w).
Proof.
  induction l as [|[d q] rest IH]; intros w; simpl; [reflexivity|].
  unfold bind at 1. unfold print. unfold bind at 1.
  pose proof (keys_after_del_record d q
                (set_stdout (stdout w ++ [MsgExpired d q]) w)) as Hk.
  destruct (del_record d q _) as [[[]|e|] w1]; simpl in *;
    rewrite ?IH; exact Hk.
Qed.

Lemma stdout_after_remove_records l : forall (w w' : world),
  remove_records l w = (Ret tt, w') ->
  stdout w' = stdout w ++ map expired_message l.
Proof.
  induction l as [|[d q] rest IH]; intros w w'; simpl.
  - intros [= <-]. now rewrite app_nil_r.
  - unfold bind at 1. unfold print. unfold bind at 1.
    pose proof (keeps_del_record (fun a b => stdout b = stdout a)
                  (fun _ => eq_refl)
                  (fun a b c (H1 : stdout b = stdout a) (H2 : stdout c = stdout b) =>
                     eq_trans H2 H1)
                  (fun _ _ => eq_refl) d q
                  (set_stdout (stdout w ++ [MsgExpired d q]) w)) as Hs.
    destruct (del_record d q _) as [[[]|e|] w1]; simpl in Hs; try discriminate.
    intros H. rewrite (IH _ _ H), Hs, <- app_assoc. reflexivity.
Qed.

(** One pass, entry by entry: the [i]-th entry in iteration order is
    compared with the [i]-th clock reading of the pass and removed exactly
    when it has expired by then; one line is printed per removed entry. *)
Theorem sweep_pass_entry_by_entry (w : world) :
  wf_cache (dns_cache w) ->
  exists w',
    sweep_pass w = (Ret tt, w') /\
    wf_cache (dns_cache w') /\
    reads w' = (reads w + List.length (entries (dns_cache w)))%nat /\
    stdout w' =
      stdout w ++ map expired_message
                    (expired_at (clock w) (reads w) (entries (dns_cache w))) /\
    forall i d q e,
      nth_error (entries (dns_cache w)) i = Some (d, q, e) ->
      lookup d q (dns_cache w') =
        if e_time_end e <=? clock w (reads w + i)%nat then None else Some e.
Proof.
  intros Hwf.
  set (l := expired_at (clock w) (reads w) (entries (dns_cache w))).
  set (w1 := set_reads (reads w + List.length (entries (dns_cache w))) w).
  destruct (remove_records_spec l w1) as (w' & Hrun & Hwf' & Hin & Hout & Hr & _).
  - exact Hwf.
  - apply expired_at_nodup. now apply entries_keys_nodup.
  - intros d q H. apply in_expired_at in H as (i & e & Hn & _).
    exists e. apply in_entries_lookup; [exact Hwf|].
    eapply nth_error_In; eauto.
  - exists w'. split; [|split; [|split; [|split]]].
    + unfold sweep_pass. unfold bind at 1. unfold get_cache.
      unfold bind. rewrite (scan_spec w Hwf). exact Hrun.
    + exact Hwf'.
    + exact Hr.
    + apply (stdout_after_remove_records l w1 w' Hrun).
    + intros i d q e Hi.
      assert (Hl : lookup d q (dns_cache w) = Some e).
      { apply in_entries_lookup; [exact Hwf|]. eapply nth_error_In; eauto. }
      destruct (Z.leb_spec (e_time_end e) (clock w (reads w + i)%nat)) as [Hle|Hgt].
      * apply Hin. apply in_expired_at. eauto.
      * rewrite Hout; [exact Hl|].
        intros H. apply in_expired_at in H as (j & e' & Hj & Hle).
        assert (i = j)
          by exact (entries_index_unique (dns_cache w) i j d q e e' Hwf Hi Hj).
        subst j.
        assert (e' = e) by congruence. subst e'. lia.
Qed.

Lemma sweep_pass_entry_by_entry_example :
  exists w',
    sweep_pass (set_cache Sample.two_entries (Sample.quiet 0)) = (Ret tt, w') /\
    wf_cache (dns_cache w') /\
    reads w' = 2%nat /\
    stdout w' = [MsgExpired "example.com." "AAAA"] /\
    forall i d q e,
      nth_error (entries Sample.two_entries) i = Some (d, q, e) ->
      lookup d q (dns_cache w') =
        if e_time_end e <=? 0 + 1000000 * Z.of_nat (0 + i) then None else Some e.
Proof.
  apply (sweep_pass_entry_by_entry
           (set_cache Sample.two_entries (Sample.quiet 0))).
  solve_wf.
Defined.

Lemma sweep_pass_is_local_env (w : world) :
  same_env w (snd (sweep_pass w)) /\ same_network w (snd (sweep_pass w)).
Proof.
  split.
  - apply (keeps_sweep_pass same_env same_env_refl same_env_trans);
      intros; intros w0; repeat split.
  - apply (keeps_sweep_pass same_network same_network_refl same_network_trans);
      intros; intros w0; repeat split.
Qed.

(** The sweeper works on the cache and the console alone: whatever a pass
    does, it sends no datagram, takes nothing off a socket, and leaves the
    flag, the clock and the files as they are. *)
Theorem sweep_pass_is_local (w : world) :
  same_env w (snd (sweep_pass w)) /\ same_network w (snd (sweep_pass w)).
Proof. exact (sweep_pass_is_local_env w). Qed.

(** A pass deletes types, never domains: every domain name that was a key
    of the cache is still one afterwards, with whatever types are left. *)
Theorem sweep_pass_keeps_domains (w : world) :
  keys (dns_cache (snd (sweep_pass w))) = keys (dns_cache w).
Proof.
  unfold sweep_pass. unfold bind at 1. unfold get_cache. unfold bind.
  pose proof (keeps_scan_domains (fun a b => dns_cache b = dns_cache a)
                (fun _ => eq_refl)
                (fun a b c (H1 : dns_cache b = dns_cache a)
                     (H2 : dns_cache c = dns_cache b) => eq_trans H2 H1)
                (fun _ => eq_refl) (keys (dns_cache w)) [] w) as Hs.
  destruct (scan_domains _ _ w) as [[l|e|] w1]; simpl in *;
    rewrite ?keys_after_remove_records; now rewrite Hs.
Qed.

(** ** More on the two [setdefault] calls *)

Lemma dict_update_same {V} k (v : V) d :
  dict_get k d = Some v -> dict_update k v d = d.
Proof.
  induction d as [|[k' v'] rest IH]; simpl; [reflexivity|].
  destruct (String.eqb_spec k k') as [->|Hne].
  - now intros [= ->].
  - intros H. now rewrite IH.
Qed.

Lemma in_keys_setdefault {V} k (v : V) d k0 :
  In k0 (keys (dict_setdefault k v d)) -> k0 = k \/ In k0 (keys d).
Proof.
  induction d as [|[k' v'] rest IH]; simpl.
  - intros [<-|[]]. now left.
  - destruct (String.eqb k k'); simpl; [auto|].
    intros [<-|H]; [auto|]. destruct (IH H); auto.
Qed.

Lemma dict_setdefault_wf {V} k (v : V) d :
  wf_dict d -> wf_dict (dict_setdefault k v d).
Proof.
  unfold wf_dict.
  induction d as [|[k' v'] rest IH]; simpl; intros Hnd.
  - constructor; [intros [] | constructor].
  - destruct (String.eqb_spec k k') as [->|Hne]; [assumption|].
    inversion Hnd as [|? ? Hk Hrest]; subst. simpl. constructor; [|auto].
    intros H. apply in_keys_setdefault in H as [->|H]; [congruence | auto].
Qed.

Lemma forall_setdefault {V} (P : string * V -> Prop) k v d :
  Forall P d -> P (k, v) -> Forall P (dict_setdefault k v d).
Proof.
  intros Hd Hv.
  induction d as [|[k' v'] rest IH]; simpl.
  - now constructor.
  - inversion Hd; subst. destruct (String.eqb k k'); constructor; auto.
Qed.

Lemma lookup_store_other domain_name q_type e c d q :
  (d, q) <> (domain_name, q_type) ->
  lookup d q (store domain_name q_type e c) = lookup d q c.
Proof.
  intros Hne. unfold lookup, store. cbv zeta.
  destruct (dict_get domain_name c) as [inner|] eqn:E.
  - rewrite (dict_get_setdefault_present _ _ _ _ E), E.
    destruct (String.eqb_spec d domain_name) as [->|Hd].
    + rewrite (dict_get_update_same _ _ _ _ E), E.
      apply dict_get_setdefault_other. congruence.
    + now rewrite dict_get_update_other.
  - rewrite (dict_get_setdefault_absent _ _ _ E).
    destruct (String.eqb_spec d domain_name) as [->|Hd].
    + erewrite dict_get_update_same by now apply dict_get_setdefault_absent.
      rewrite E. simpl.
      destruct (String.eqb_spec q q_type); [congruence | reflexivity].
    + rewrite dict_get_update_other by assumption.
      now rewrite dict_get_setdefault_other by assumption.
Qed.

Lemma lookup_store_cases domain_name q_type e c d q e' :
  lookup d q (store domain_name q_type e c) = Some e' ->
  e' = e \/ lookup d q c = Some e'.
Proof.
  intros H.
  destruct (String.eqb_spec d domain_name) as [->|Hd].
  - destruct (String.eqb_spec q q_type) as [->|Hq].
    + destruct (lookup domain_name q_type c) as [e0|] eqn:E.
      * rewrite (store_present _ _ e _ _ E) in H. now right.
      * rewrite (lookup_store_absent _ _ e _ E) in H. left. congruence.
    + right. rewrite lookup_store_other in H by congruence. exact H.
  - right. rewrite lookup_store_other in H by congruence. exact H.
Qed.

Lemma store_present_same domain_name q_type e e0 c :
  lookup domain_name q_type c = Some e0 ->
  store domain_name q_type e c = c.
Proof.
  unfold lookup, store. cbv zeta. intros H.
  destruct (dict_get domain_name c) as [inner|] eqn:E; [|discriminate].
  rewrite (dict_get_setdefault_present _ _ _ _ E), E.
  rewrite (dict_get_setdefault_present _ _ _ _ H).
  now apply dict_update_same.
Qed.

Lemma store_wf domain_name q_type e c :
  wf_cache c -> wf_cache (store domain_name q_type e c).
Proof.
  intros [Hnd Hall]. unfold store. cbv zeta.
  assert (Hwf1 : wf_cache (dict_setdefault domain_name ([] : dict entry) c)).
  { split; [now apply dict_setdefault_wf|].
    apply forall_setdefault; [assumption|]. simpl. constructor. }
  match goal with
  | |- wf_cache (match ?x with _ => _ end) => destruct x as [inner|] eqn:E
  end; [|exact Hwf1].
  apply wf_cache_update; [exact Hwf1|].
  apply dict_setdefault_wf.
  destruct Hwf1 as [_ Hall1]. rewrite Forall_forall in Hall1.
  exact (Hall1 _ (dict_get_in _ _ _ E)).
Qed.

(** First come, first kept: once an entry was stored for a name and type,
    storing another one for them changes nothing, neither the entry nor
    its place in the dictionaries. *)
Theorem store_twice domain_name q_type e1 e2 c :
  store domain_name q_type e2 (store domain_name q_type e1 c) =
  store domain_name q_type e1 c.
Proof.
  destruct (lookup domain_name q_type c) as [e0|] eqn:E.
  - apply store_present_same with (e0 := e0). now apply store_present.
  - apply store_present_same with (e0 := e1). now apply lookup_store_absent.
Qed.

(** ** More on [get_response_info] and [make_request] *)

(** [get_response_info] returns exactly for the packets that parse and
    carry at least one record, and then the payload list is not empty. *)
Theorem get_response_info_ok_iff {L : Libs} data :
  (exists t l, get_response_info data = Ok (t, l)) <->
  (exists response, parse data = Ok response /\ rr response <> []).
Proof.
  unfold get_response_info. split.
  - intros (t & l & H). destruct (parse data) as [response|e]; [|discriminate].
    exists response. split; [reflexivity|].
    destruct (rr response); [discriminate | discriminate].
  - intros (response & -> & Hne).
    destruct (rr response) as [|first others]; [congruence|]. eauto.
Qed.

Lemma get_response_info_nonempty {L : Libs} data t l :
  get_response_info data = Ok (t, l) -> l <> [].
Proof.
  unfold get_response_info.
  destruct (parse data) as [response|e]; [|discriminate].
  destruct (rr response) as [|first others]; [discriminate|].
  intros [= _ <-]. discriminate.
Qed.

Section ForwardingCases.
Context {L : Libs}.
Variables (sock_send sock_rec : socket) (data_request : bytes).
Variables (domain_name q_type : string) (address_request : addr).

Local Notation forward :=
  (make_request sock_send sock_rec data_request domain_name q_type
     address_request).

(** Either only the query went out and the cache is as before, or a
    reply was decoded, stored through [store] and relayed. *)
Lemma make_request_cases (w : world) :
  (dns_cache (snd (forward w)) = dns_cache w /\
   sent (snd (forward w)) = sent w ++ [(fd sock_send, data_request, upstream)]) \/
  (exists data from rest ttl r_data,
     inbox w (fd sock_send) = Datagram data from :: rest /\
     firstn 1024 data <> [] /\
     get_response_info (firstn 1024 data) = Ok (ttl, r_data) /\
     dns_cache (snd (forward w)) =
       store domain_name q_type
         (mkEntry r_data (clock w (reads w) + timedelta_milliseconds ttl) ttl)
         (dns_cache w) /\
     sent (snd (forward w)) =
       sent w ++ [(fd sock_send, data_request, upstream);
                  (fd sock_rec, firstn 1024 data, address_request)]).
Proof.
  destruct (inbox w (fd sock_send)) as [|ev rest] eqn:Hin.
  - left. unfold make_request, bind, sendto, recvfrom, nothing_arrives. cbn.
    rewrite Hin. destruct (timeout sock_send); split; reflexivity.
  - destruct ev as [data from| |].
    + assert (Hd : firstn 1024 data = [] \/ firstn 1024 data <> [])
        by (destruct (firstn 1024 data); [left | right]; congruence).
      destruct Hd as [Hd|Hd].
      * left. unfold make_request, bind, sendto, recvfrom. cbn.
        rewrite Hin. cbn. rewrite Hd. split; reflexivity.
      * destruct (get_response_info (firstn 1024 data)) as [[ttl r_data]|e] eqn:Hi.
        -- right. exists data, from, rest, ttl, r_data.
           destruct (make_request_decoded sock_send sock_rec data_request
                       domain_name q_type address_request w data from rest
                       ttl r_data Hin Hd Hi) as (_ & Hc & Hs & _).
           auto.
        -- left.
           destruct (make_request_rejected sock_send sock_rec data_request
                       domain_name q_type address_request w data from rest
                       e Hin Hd Hi) as (_ & Hc & Hs & _).
           auto.
    + left. unfold make_request, bind, sendto, recvfrom, nothing_arrives. cbn.
      rewrite Hin. cbn. destruct (timeout sock_send); split; reflexivity.
    + left. unfold make_request, bind, sendto, recvfrom. cbn.
      rewrite Hin. split; reflexivity.
Qed.
End ForwardingCases.

(** Whatever happens, the query goes out first and unmodified to
    8.8.8.8:53, and at most one more datagram is sent: the first 1024 bytes
    of the upstream reply, to the client, over the listening socket. *)
Theorem make_request_sends {L : Libs}
    sock_send sock_rec data_request domain_name q_type address_request
    (w : world) :
  exists tail,
    sent (snd (make_request sock_send sock_rec data_request domain_name
                 q_type address_request w)) =
      sent w ++ (fd sock_send, data_request, upstream) :: tail /\
    (tail = [] \/
     exists data from rest,
       inbox w (fd sock_send) = Datagram data from :: rest /\
       tail = [(fd sock_rec, firstn 1024 data, address_request)]).
Proof.
  destruct (make_request_cases sock_send sock_rec data_request domain_name
              q_type address_request w)
    as [(_ & Hs)|(data & from & rest & t & l & Hin & _ & _ & _ & Hs)].
  - exists []. split; [exact Hs | now left].
  - eexists. split; [exact Hs|]. right. eauto.
Qed.

(** A forwarding changes the cache for the name and type of the query at
    most: every other name and type has the entry it had. *)
Theorem make_request_changes_one_key {L : Libs}
    sock_send sock_rec data_request domain_name q_type address_request
    (w : world) d q :
  (d, q) <> (domain_name, q_type) ->
  lookup d q (dns_cache (snd (make_request sock_send sock_rec data_request
                                domain_name q_type address_request w))) =
  lookup d q (dns_cache w).
Proof.
  intros Hne.
  destruct (make_request_cases sock_send sock_rec data_request domain_name
              q_type address_request w)
    as [(Hc & _)|(data & from & rest & t & l & _ & _ & _ & Hc & _)];
    rewrite Hc; [reflexivity|].
  now apply lookup_store_other.
Qed.

Lemma make_request_changes_one_key_example :
  lookup "example.com." "AAAA"
    (dns_cache (snd (make_request (L := Sample.sample_libs)
                       (socket_new forward_fd) (socket_new listen_fd)
                       Sample.query "example.com." "A" Sample.client
                       (set_cache Sample.two_entries
                          (Sample.with_upstream
                             [Datagram Sample.answer upstream]
                             (Sample.quiet 0)))))) =
  lookup "example.com." "AAAA" Sample.two_entries.
Proof.
  apply (make_request_changes_one_key (L := Sample.sample_libs)
           (socket_new forward_fd) (socket_new listen_fd) Sample.query
           "example.com." "A" Sample.client
           (set_cache Sample.two_entries
              (Sample.with_upstream [Datagram Sample.answer upstream]
                 (Sample.quiet 0)))
           "example.com." "AAAA").
  discriminate.
Defined.

(** Keys stay unique through a forwarding. *)
Theorem make_request_keeps_wf {L : Libs}
    sock_send sock_rec data_request domain_name q_type address_request
    (w : world) :
  wf_cache (dns_cache w) ->
  wf_cache (dns_cache (snd (make_request sock_send sock_rec data_request
                              domain_name q_type address_request w))).
Proof.
  intros Hwf.
  destruct (make_request_cases sock_send sock_rec data_request domain_name
              q_type address_request w)
    as [(Hc & _)|(data & from & rest & t & l & _ & _ & _ & Hc & _)];
    rewrite Hc; [assumption|].
  now apply store_wf.
Qed.

Lemma make_request_keeps_wf_example :
  wf_cache
    (dns_cache (snd (make_request (L := Sample.sample_libs)
                       (socket_new forward_fd) (socket_new listen_fd)
                       Sample.query "example.org." "A" Sample.client
                       (set_cache Sample.two_entries
                          (Sample.with_upstream
                             [Datagram Sample.answer upstream]
                             (Sample.quiet 0)))))).
Proof.
  apply (make_request_keeps_wf (L := Sample.sample_libs)).
  solve_wf.
Defined.

(** A forwarding never puts an entry without records into the cache: if no
    entry of the cache has an empty record list before, none has
    afterwards. *)
Theorem make_request_never_stores_empty {L : Libs}
    sock_send sock_rec data_request domain_name q_type address_request
    (w : world) :
  nonempty_records (dns_cache w) ->
  nonempty_records
    (dns_cache (snd (make_request sock_send sock_rec data_request
                       domain_name q_type address_request w))).
Proof.
  intros Hne.
  destruct (make_request_cases sock_send sock_rec data_request domain_name
              q_type address_request w)
    as [(Hc & _)|(data & from & rest & t & l & _ & _ & Hi & Hc & _)];
    rewrite Hc; [assumption|].
  intros d q e' Hl. apply lookup_store_cases in Hl as [->|Hl].
  - simpl. eapply get_response_info_nonempty; eauto.
  - eapply Hne; eauto.
Qed.

Lemma make_request_never_stores_empty_example :
  nonempty_records
    (dns_cache (snd (make_request (L := Sample.sample_libs)
                       (socket_new forward_fd) (socket_new listen_fd)
                       Sample.query "example.com." "A" Sample.client
                       (Sample.with_upstream
                          [Datagram Sample.answer upstream]
                          (Sample.quiet 0))))).
Proof.
  apply (make_request_never_stores_empty (L := Sample.sample_libs)).
  intros d q e H. discriminate H.
Defined.

(** A reply of zero bytes is ignored without a word: the call returns,
    the cache is as before, nothing is relayed and nothing is printed. *)
Theorem make_request_empty_reply {L : Libs}
    sock_send sock_rec data_request domain_name q_type address_request
    (w : world) from rest :
  inbox w (fd sock_send) = Datagram [] from :: rest ->
  let r := make_request sock_send sock_rec data_request domain_name q_type
             address_request w in
  fst r = Ret tt /\
  dns_cache (snd r) = dns_cache w /\
  sent (snd r) = sent w ++ [(fd sock_send, data_request, upstream)] /\
  stdout (snd r) = stdout w /\
  reads (snd r) = reads w.
Proof.
  intros Hin r. subst r.
  unfold make_request, bind, sendto, recvfrom. cbn.
  rewrite Hin. cbn. rewrite firstn_nil. repeat split.
Qed.

Lemma make_request_empty_reply_example :
  let r := make_request (L := Sample.sample_libs)
             (socket_new forward_fd) (socket_new listen_fd) Sample.query
             "example.com." "A" Sample.client
             (Sample.with_upstream [Datagram [] upstream] (Sample.quiet 0)) in
  fst r = Ret tt /\
  dns_cache (snd r) = [] /\
  sent (snd r) = [] ++ [(forward_fd, Sample.query, upstream)] /\
  stdout (snd r) = [] /\
  reads (snd r) = 0%nat.
Proof.
  apply (make_request_empty_reply (L := Sample.sample_libs)
           (socket_new forward_fd) (socket_new listen_fd) Sample.query
           "example.com." "A" Sample.client
           (Sample.with_upstream [Datagram [] upstream] (Sample.quiet 0))
           upstream []).
  reflexivity.
Defined.

(** ** More on the listener *)

Section ListeningMore.
Context {L : Libs}.

Local Notation body :=
  (working_dns_body (socket_new listen_fd) (socket_new forward_fd)).
Local Notation forward_for data name qt from :=
  (make_request (socket_new forward_fd) (settimeout (socket_new listen_fd) 5)
     data name qt from).

Lemma get_request_info_first data request question others q_type :
  parse data = Ok request ->
  questions request = question :: others ->
  QTYPE (qtype question) = Ok q_type ->
  get_request_info data = Ok (qname question, q_type).
Proof.
  intros Hp Hq Ht. unfold get_request_info, get_q. now rewrite Hp, Hq, Ht.
Qed.

(** A decodable query that is not in the cache goes to [make_request]. *)
Lemma body_miss (w : world) data from rest domain_name q_type :
  inbox w listen_fd = Datagram data from :: rest ->
  firstn 1024 data <> [] ->
  get_request_info (firstn 1024 data) = Ok (domain_name, q_type) ->
  lookup domain_name q_type (dns_cache w) = None ->
  body w =
    bind (forward_for (firstn 1024 data) domain_name q_type from)
      (fun _ => ret Continue) (taken rest w).
Proof.
  intros Hin Hne Hinfo Hl.
  destruct (firstn 1024 data) as [|b d] eqn:Hd; [congruence|].
  rewrite (body_received w data from rest b d Hin Hd).
  unfold bind at 1. rewrite Hinfo. cbn [lift ret fst snd].
  unfold bind at 1. unfold get_cache. cbn [dns_cache taken set_inbox].
  assert (Hc : cached domain_name q_type (dns_cache w) = false).
  { destruct (cached domain_name q_type (dns_cache w)) eqn:E; [|reflexivity].
    apply cached_lookup in E as [e He]. congruence. }
  now rewrite Hc.
Qed.

(** A decodable query that is in the cache: the clock is read once and
    decides between the cache and [make_request]. *)
Lemma body_hit (w : world) data from rest domain_name q_type e :
  inbox w listen_fd = Datagram data from :: rest ->
  firstn 1024 data <> [] ->
  get_request_info (firstn 1024 data) = Ok (domain_name, q_type) ->
  lookup domain_name q_type (dns_cache w) = Some e ->
  body w =
    bind
      (if clock w (reads w) <? e_time_end e
       then
         bind (print (MsgFromCache domain_name q_type)) (fun _ =>
           bind (prepare_dns_response (firstn 1024 data) domain_name q_type)
             (fun response =>
                sendto (settimeout (socket_new listen_fd) 5) response from))
       else forward_for (firstn 1024 data) domain_name q_type from)
      (fun _ => ret Continue)
      (set_reads (S (reads w)) (taken rest w)).
Proof.
  intros Hin Hne Hinfo Hl.
  destruct (firstn 1024 data) as [|b d] eqn:Hd; [congruence|].
  rewrite (body_received w data from rest b d Hin Hd).
  unfold bind at 1. rewrite Hinfo. cbn [lift ret fst snd].
  unfold bind at 1. unfold get_cache. cbn [dns_cache taken set_inbox].
  assert (Hc : cached domain_name q_type (dns_cache w) = true)
    by (apply cached_lookup; eauto).
  rewrite Hc, Hl. cbn [lift_key].
  unfold bind at 1. unfold bind at 1. unfold ret at 1.
  unfold bind at 1. unfold now at 1. cbn [clock reads taken set_inbox].
  destruct (clock w (reads w) <? e_time_end e); reflexivity.
Qed.
End ListeningMore.

Lemma snd_bind_ret {A B} (m : M A) (b : B) (w : world) :
  snd (bind m (fun _ => ret b) w) = snd (m w).
Proof. unfold bind, ret. now destruct (m w) as [[a|e|] w1]. Qed.

Lemma body_fresh_hit {L : Libs}
    (w : world) data from rest request question others q_type e :
  inbox w listen_fd = Datagram data from :: rest ->
  firstn 1024 data <> [] ->
  parse (firstn 1024 data) = Ok request ->
  questions request = question :: others ->
  QTYPE (qtype question) = Ok q_type ->
  lookup (qname question) q_type (dns_cache w) = Some e ->
  clock w (reads w) < e_time_end e ->
  let r := working_dns_body (socket_new listen_fd) (socket_new forward_fd) w in
  fst r = Ret Continue /\
  sent (snd r) =
    sent w ++ [(listen_fd,
                pack (mkRecord (header request) [question]
                        (map (answer_for question e) (e_rdata e))),
                from)] /\
  dns_cache (snd r) = dns_cache w /\
  inbox (snd r) forward_fd = inbox w forward_fd /\
  stdout (snd r) = stdout w ++ [MsgFromCache (qname question) q_type].
Proof.
  intros Hin Hne Hp Hq Ht Hl Hfresh r.
  pose proof (get_request_info_first _ _ _ _ _ Hp Hq Ht) as Hinfo.
  assert (E : exists w', r = (Ret Continue, w') /\
                sent w' = sent w ++ [(listen_fd,
                   pack (mkRecord (header request) [question]
                           (map (answer_for question e) (e_rdata e))), from)] /\
                dns_cache w' = dns_cache w /\
                inbox w' forward_fd = inbox w forward_fd /\
                stdout w' = stdout w ++ [MsgFromCache (qname question) q_type]).
  { subst r. rewrite (body_hit w data from rest _ _ e Hin Hne Hinfo Hl).
    apply Z.ltb_lt in Hfresh. rewrite Hfresh.
    unfold bind at 1. unfold bind at 1. unfold print at 1.
    unfold bind at 1.
    match goal with
    | |- context [prepare_dns_response ?a ?b ?c ?W] =>
        rewrite (prepare_dns_response_spec a b c request question others e
                   W Hp Hq Hl)
    end.
    eexists. split; [reflexivity|]. repeat split. }
  destruct E as (w' & -> & Hs & Hc & Hi & Ho). auto.
Qed.

(** A query whose name and type are cached with an expiry later than the
    clock reading is answered from the cache alone: one datagram goes to
    the client, built from the request and the entry; nothing goes to the
    upstream, nothing is taken off the forwarding socket, and the cache
    is as before. *)
Theorem working_dns_body_serves_fresh_hit {L : Libs}
    (w : world) data from rest request question others q_type e :
  inbox w listen_fd = Datagram data from :: rest ->
  firstn 1024 data <> [] ->
  parse (firstn 1024 data) = Ok request ->
  questions request = question :: others ->
  QTYPE (qtype question) = Ok q_type ->
  lookup (qname question) q_type (dns_cache w) = Some e ->
  clock w (reads w) < e_time_end e ->
  let r := working_dns_body (socket_new listen_fd) (socket_new forward_fd) w in
  fst r = Ret Continue /\
  sent (snd r) =
    sent w ++ [(listen_fd,
                pack (mkRecord (header request) [question]
                        (map (answer_for question e) (e_rdata e))),
                from)] /\
  dns_cache (snd r) = dns_cache w /\
  inbox (snd r) forward_fd = inbox w forward_fd /\
  stdout (snd r) = stdout w ++ [MsgFromCache (qname question) q_type].
Proof.
  exact (body_fresh_hit w data from rest request question others q_type e).
Qed.

Lemma working_dns_body_serves_fresh_hit_example :
  let w := set_cache (Sample.cache_with Sample.entry_a)
             (Sample.with_clients [Datagram Sample.query Sample.client]
                (Sample.quiet 0)) in
  let r := working_dns_body (L := Sample.sample_libs)
             (socket_new listen_fd) (socket_new forward_fd) w in
  fst r = Ret Continue /\
  sent (snd r) =
    sent w ++ [(listen_fd,
                @pack Sample.sample_libs
                  (mkRecord (header Sample.query_record)
                     [Sample.example_question]
                     (map (answer_for Sample.example_question Sample.entry_a)
                        (e_rdata Sample.entry_a))),
                Sample.client)] /\
  dns_cache (snd r) = dns_cache w /\
  inbox (snd r) forward_fd = inbox w forward_fd /\
  stdout (snd r) = stdout w ++ [MsgFromCache "example.com." "A"].
Proof.
  intros w.
  apply (working_dns_body_serves_fresh_hit (L := Sample.sample_libs) w
           Sample.query Sample.client [] Sample.query_record
           Sample.example_question [] "A" Sample.entry_a).
  - reflexivity.
  - vm_compute. discriminate.
  - vm_compute. reflexivity.
  - reflexivity.
  - reflexivity.
  - reflexivity.
  - reflexivity.
Defined.

(** A decodable query that is not in the cache, or whose entry has an
    expiry at or before the clock reading, is forwarded: the first
    datagram sent is the raw query to the upstream, and the only other
    one, if any, is the upstream reply relayed to the client. *)
Theorem working_dns_body_forwards_unless_fresh {L : Libs}
    (w : world) data from rest domain_name q_type :
  inbox w listen_fd = Datagram data from :: rest ->
  firstn 1024 data <> [] ->
  get_request_info (firstn 1024 data) = Ok (domain_name, q_type) ->
  match lookup domain_name q_type (dns_cache w) with
  | Some e => e_time_end e <= clock w (reads w)
  | None => True
  end ->
  exists tail,
    sent (snd (working_dns_body (socket_new listen_fd)
                 (socket_new forward_fd) w)) =
      sent w ++ (forward_fd, firstn 1024 data, upstream) :: tail /\
    (tail = [] \/
     exists reply up rest_up,
       inbox w forward_fd = Datagram reply up :: rest_up /\
       tail = [(listen_fd, firstn 1024 reply, from)]).
Proof.
  intros Hin Hne Hinfo Hstale.
  destruct (lookup domain_name q_type (dns_cache w)) as [e|] eqn:Hl.
  - rewrite (body_hit w data from rest _ _ e Hin Hne Hinfo Hl).
    apply Z.ltb_ge in Hstale. rewrite Hstale. rewrite snd_bind_ret.
    destruct (make_request_cases (socket_new forward_fd)
                (settimeout (socket_new listen_fd) 5) (firstn 1024 data)
                domain_name q_type from
                (set_reads (S (reads w)) (taken rest w)))
      as [(_ & Hs)|(reply & up & rest_up & t & l & Hup & _ & _ & _ & Hs)];
      rewrite Hs.
    + exists []. split; [reflexivity | now left].
    + eexists. split; [reflexivity|]. right. exists reply, up, rest_up.
      split; [exact Hup | reflexivity].
  - rewrite (body_miss w data from rest _ _ Hin Hne Hinfo Hl).
    rewrite snd_bind_ret.
    destruct (make_request_cases (socket_new forward_fd)
                (settimeout (socket_new listen_fd) 5) (firstn 1024 data)
                domain_name q_type from (taken rest w))
      as [(_ & Hs)|(reply & up & rest_up & t & l & Hup & _ & _ & _ & Hs)];
      rewrite Hs.
    + exists []. split; [reflexivity | now left].
    + eexists. split; [reflexivity|]. right. exists reply, up, rest_up.
      split; [exact Hup | reflexivity].
Qed.

(** The entry expires exactly at the clock reading: it is not served. *)
Lemma working_dns_body_forwards_unless_fresh_example :
  exists tail,
    sent (snd (working_dns_body (L := Sample.sample_libs)
                 (socket_new listen_fd) (socket_new forward_fd)
                 (set_cache
                    (Sample.cache_with (mkEntry [Sample.example_rdata] 0 300))
                    (Sample.with_clients [Datagram Sample.query Sample.client]
                       (Sample.quiet 0))))) =
      [] ++ (forward_fd, firstn 1024 Sample.query, upstream) :: tail /\
    (tail = [] \/
     exists reply up rest_up,
       @nil recv_event = Datagram reply up :: rest_up /\
       tail = [(listen_fd, firstn 1024 reply, Sample.client)]).
Proof.
  apply (working_dns_body_forwards_unless_fresh (L := Sample.sample_libs)
           (set_cache
              (Sample.cache_with (mkEntry [Sample.example_rdata] 0 300))
              (Sample.with_clients [Datagram Sample.query Sample.client]
                 (Sample.quiet 0)))
           Sample.query Sample.client [] "example.com." "A").
  - reflexivity.
  - vm_compute. discriminate.
  - vm_compute. reflexivity.
  - simpl. lia.
Defined.

(** ** What the listener leaves alone *)

Section KeepsReading.
Context {L : Libs}.
Variable R : world -> world -> Prop.
Hypothesis R_refl : forall w, R w w.
Hypothesis R_trans : forall w1 w2 w3, R w1 w2 -> R w2 w3 -> R w1 w3.

Lemma keeps_add_answers question domain_name q_type r_data_list :
  forall response,
    keeps R (add_answers question domain_name q_type r_data_list response).
Proof.
  induction r_data_list as [|r_data rest IH]; intros response; simpl.
  - now apply keeps_ret.
  - apply keeps_bind; [assumption | now apply keeps_get_cache |]. intros c.
    apply keeps_bind; [assumption | now apply keeps_lift_key |]. intros e.
    apply IH.
Qed.

Lemma keeps_prepare_dns_response data_request domain_name q_type :
  keeps R (prepare_dns_response data_request domain_name q_type).
Proof.
  unfold prepare_dns_response.
  apply keeps_bind; [assumption | now apply keeps_lift |]. intros request.
  destruct (questions request) as [|question others];
    [now apply keeps_raise|].
  apply keeps_bind; [assumption | now apply keeps_get_cache |]. intros c.
  apply keeps_bind; [assumption | now apply keeps_lift_key |]. intros e.
  cbv zeta.
  apply keeps_bind; [assumption | apply keeps_add_answers |]. intros response.
  now apply keeps_ret.
Qed.
End KeepsReading.

Section KeepsEnv.
Context {L : Libs}.

Lemma env_put_cache c : keeps same_env (put_cache c).
Proof. intros w. repeat split. Qed.

Lemma env_now : keeps same_env now.
Proof. intros w. repeat split. Qed.

Lemma env_print m : keeps same_env (print m).
Proof. intros w. repeat split. Qed.

Lemma env_sendto s data a : keeps same_env (sendto s data a).
Proof. intros w. repeat split. Qed.

Lemma env_recvfrom s n : keeps same_env (recvfrom s n).
Proof.
  intros w. unfold recvfrom, nothing_arrives.
  destruct (inbox w (fd s)) as [|[data from| |] rest];
    destruct (timeout s); repeat split.
Qed.

Ltac env :=
  repeat (intros; first
    [ apply (keeps_ret same_env same_env_refl)
    | apply (keeps_raise same_env same_env_refl)
    | apply (keeps_lift same_env same_env_refl)
    | apply (keeps_lift_key same_env same_env_refl)
    | apply (keeps_get_cache same_env same_env_refl)
    | apply (keeps_get_running same_env same_env_refl)
    | apply env_put_cache
    | apply env_now
    | apply env_print
    | apply env_sendto
    | apply env_recvfrom
    | apply (keeps_prepare_dns_response same_env same_env_refl same_env_trans)
    | apply (keeps_bind same_env same_env_trans)
    | apply (keeps_try_except same_env same_env_trans)
    | match goal with
      | |- keeps _ (match ?x with _ => _ end) => destruct x
      end ]).

Lemma env_make_request sock_send sock_rec data_request domain_name q_type
    address_request :
  keeps same_env
    (make_request sock_send sock_rec data_request domain_name q_type
       address_request).
Proof. unfold make_request. cbv zeta. env. Qed.

Lemma env_working_dns_body sock_rec sock_send :
  keeps same_env (working_dns_body sock_rec sock_send).
Proof.
  unfold working_dns_body. cbv zeta.
  apply (keeps_bind same_env same_env_trans); [env|].
  intros r. destruct r as [data_request address_request| |]; [|env|env].
  destruct data_request as [|b d]; [env|].
  apply (keeps_bind same_env same_env_trans); [env|]. intros info.
  apply (keeps_bind same_env same_env_trans); [env|]. intros c.
  apply (keeps_bind same_env same_env_trans); [|env].
  destruct (cached (fst info) (snd info) c); [|apply env_make_request].
  apply (keeps_bind same_env same_env_trans); [env|]. intros e.
  apply (keeps_bind same_env same_env_trans); [env|]. intros t.
  destruct (t <? e_time_end e); [env | apply env_make_request].
Qed.

Lemma env_serve sock_rec sock_send fuel :
  keeps same_env (serve fuel sock_rec sock_send).
Proof.
  induction fuel as [|fuel IH]; simpl; [env|].
  apply (keeps_bind same_env same_env_trans); [env|]. intros run.
  destruct run; [|env].
  apply (keeps_bind same_env same_env_trans); [apply env_working_dns_body|].
  intros ctl. destruct ctl; [exact IH | env].
Qed.
End KeepsEnv.

(** The listener leaves the flag, the clock and the files alone, however
    many rounds it makes and however they end. *)
Theorem working_dns_keeps_env {L : Libs} fuel (w : world) :
  same_env w (snd (working_dns fuel w)).
Proof.
  unfold working_dns. cbv zeta.
  apply (keeps_try_except same_env same_env_trans).
  - apply env_serve.
  - apply (keeps_bind same_env same_env_trans);
      [apply env_print | intros; apply (keeps_ret same_env same_env_refl)].
Qed.

(** Building an answer from the cache only reads: whether
    [prepare_dns_response] returns or raises, the world is the one it
    started in. *)
Theorem prepare_dns_response_reads_only {L : Libs}
    data_request domain_name q_type (w : world) :
  snd (prepare_dns_response data_request domain_name q_type w) = w.
Proof.
  apply (keeps_prepare_dns_response (fun a b => b = a)
           (fun _ => eq_refl)
           (fun a b c (H1 : b = a) (H2 : c = b) => eq_trans H2 H1)).
Qed.

(** ** More on the controller and the threads *)

Section Flag.
Context {L : Libs}.

Lemma snd_thread_round {A} (r : outcome A * world) left :
  snd (thread_round r left) = snd r.
Proof. now destruct r as [[a|e|] w]. Qed.

Lemma flag_step a s :
  flag_follows_controller s /\ leaves_after_flag s ->
  flag_follows_controller (step a s) /\ leaves_after_flag (step a s).
Proof.
  unfold flag_follows_controller, leaves_after_flag. intros [Hf Hl].
  destruct a as [line| | |]; simpl.
  - destruct (ctl s) eqn:E; rewrite ?E; auto.
    destruct (String.eqb line "exit"); simpl; rewrite ?E; auto.
    split; [reflexivity | discriminate].
  - destruct (ctl s) eqn:E; simpl; rewrite ?E; auto;
      (split; [exact Hf | discriminate]).
  - destruct (sweeper s) eqn:Es; rewrite ?Es; auto.
    destruct (running (sys_world s)) eqn:Er; simpl.
    + rewrite snd_thread_round.
      destruct (sweep_pass_is_local_env (sys_world s)) as ((Hr & _) & _).
      rewrite Hr, Er. split; [exact Hf|].
      destruct (sweep_pass (sys_world s)) as [[[]|e|] w1]; discriminate.
    + split; [rewrite Er; exact Hf|].
      intros _ Hc. rewrite Hc in Hf. congruence.
  - destruct (listener s) eqn:El; rewrite ?El; auto.
    destruct (running (sys_world s)) eqn:Er; simpl.
    + rewrite snd_thread_round.
      destruct (keeps_try_except same_env same_env_trans
                  (working_dns_body (socket_new listen_fd)
                     (socket_new forward_fd))
                  (bind (print MsgSocketError) (fun _ => ret Break))
                  is_socket_error
                  (env_working_dns_body _ _)
                  (keeps_bind same_env same_env_trans _ _
                     (env_print _)
                     (fun _ => keeps_ret same_env same_env_refl _))
                  (sys_world s)) as (Hr & _).
      rewrite Hr, Er. auto.
    + rewrite Er. auto.
Qed.

Lemma flag_run acts : forall s,
  flag_follows_controller s /\ leaves_after_flag s ->
  flag_follows_controller (run acts s) /\ leaves_after_flag (run acts s).
Proof.
  unfold run.
  induction acts as [|a acts IH]; intros s H; simpl; [assumption|].
  apply IH. now apply flag_step.
Qed.
End Flag.

(** In every run the flag is up exactly as long as the controller has not
    read [exit]: no thread takes it down and nothing raises it again.  The
    sweeper leaves its loop only after the flag went down, and once it is
    down a thread that stands at its loop check leaves at that check. *)
Theorem flag_governs_threads {L : Libs} (w : world) (acts : list action) :
  let s := run acts (started w) in
  (running (sys_world s) = true <-> ctl s = AtInput) /\
  (sweeper s = LeftLoop -> In EvFlagDown (trace s)) /\
  (In EvFlagDown (trace s) ->
   (sweeper s = InLoop -> sweeper (step ActSweeper s) = LeftLoop) /\
   (listener s = InLoop -> listener (step ActListener s) = LeftLoop)).
Proof.
  intros s.
  destruct (flag_run acts (started w)) as [Hf Hl].
  { split; [reflexivity | discriminate]. }
  fold s in Hf, Hl. unfold flag_follows_controller in Hf.
  unfold leaves_after_flag in Hl.
  assert (Hord : in_order s) by (apply in_order_run, in_order_started).
  unfold in_order in Hord.
  assert (Hdown : In EvFlagDown (trace s) <-> ctl s <> AtInput).
  { split.
    - intros Hin Hc. apply in_controller_events in Hin; [|auto].
      rewrite Hord, Hc in Hin. contradiction.
    - intros Hc. apply controller_events_in. rewrite Hord.
      destruct (ctl s); simpl; auto; congruence. }
  split; [|split].
  - rewrite Hf. destruct (ctl s); split; congruence.
  - intros Hs. apply Hdown. auto.
  - intros Hin. apply Hdown in Hin.
    assert (Hr : running (sys_world s) = false)
      by (rewrite Hf; destruct (ctl s); congruence).
    split; intros Hloop; simpl; rewrite Hloop, Hr; reflexivity.
Qed.

(** ** Saving and loading *)

(** [save_dns_cache] writes the pickle of the whole cache into
    [dns_cache.pickle], the file that the constructor hands to
    [read_cache], whatever that file held before; it writes no other file
    and does not touch the cache.  So when the pickle of the cache loads
    to the cache, a [read_cache] after the save returns the saved cache
    and the server boots with it. *)
Theorem save_then_read_cache {L : Libs} (w : world) :
  pickle_loads (pickle_dumps (dns_cache w)) = Ok (dns_cache w) ->
  let w' := snd (save_dns_cache w) in
  files w' "dns_cache.pickle" = Some (pickle_dumps (dns_cache w)) /\
  read_cache (files w') "dns_cache.pickle" = Ok (dns_cache w) /\
  (forall p, p <> "dns_cache.pickle" -> files w' p = files w p) /\
  dns_cache w' = dns_cache w /\
  boot w' = Ok (started (set_cache (dns_cache w) w')).
Proof.
  intros Hp w'. subst w'.
  assert (Hr : read_cache (files (snd (save_dns_cache w))) "dns_cache.pickle"
               = Ok (dns_cache w)).
  { unfold read_cache, save_dns_cache. cbn. now rewrite Hp. }
  split; [reflexivity|].
  split; [exact Hr|]. split; [|split].
  - intros p Hne. unfold save_dns_cache. cbn.
    destruct (String.eqb_spec p "dns_cache.pickle"); [contradiction | reflexivity].
  - reflexivity.
  - unfold boot. now rewrite Hr.
Qed.

(** A cache with one entry is saved over an old snapshot that is no
    pickle; the file then holds the 95 bytes of the pickle, and the next
    start reads the entry back. *)
Lemma save_then_read_cache_example :
  let w := set_files (fun _ => Some [x00])
             (set_cache (Sample.cache_with Sample.entry_a) (Sample.quiet 0)) in
  let w' := snd (save_dns_cache (L := Sample.sample_libs) w) in
  files w' "dns_cache.pickle" = Some Sample.entry_a_pickle /\
  read_cache (L := Sample.sample_libs) (files w') "dns_cache.pickle"
    = Ok (Sample.cache_with Sample.entry_a) /\
  (forall p, p <> "dns_cache.pickle" -> files w' p = Some [x00]) /\
  dns_cache w' = Sample.cache_with Sample.entry_a /\
  boot (L := Sample.sample_libs) w'
    = Ok (started (set_cache (Sample.cache_with Sample.entry_a) w')).
Proof.
  intros w.
  apply (save_then_read_cache (L := Sample.sample_libs) w).
  reflexivity.
Defined.

(** ** Rounds of the listener without a query *)

(** A timeout or a connection reset on the listening socket, or a datagram
    of zero bytes: nothing is decoded, nothing is sent, the cache is as
    before.  After a timeout or a reset the loop is left exactly when the
    flag is down; after an empty datagram the round just ends. *)
Theorem working_dns_body_idle {L : Libs} (w : world) ev rest :
  inbox w listen_fd = ev :: rest ->
  ev = Silence \/ ev = ConnReset \/ (exists from, ev = Datagram [] from) ->
  working_dns_body (socket_new listen_fd) (socket_new forward_fd) w =
    (Ret (match ev with
          | Datagram _ _ => Continue
          | _ => if running w then Continue else Break
          end),
     taken rest w).
Proof.
  intros Hin Hev.
  unfold working_dns_body, try_except.
  unfold bind at 1. unfold bind at 1. unfold recvfrom, nothing_arrives. cbn.
  rewrite Hin.
  destruct Hev as [->|[->|(from & ->)]]; cbn.
  - unfold bind, get_running, ret. cbn. now destruct (running w).
  - unfold bind, get_running, ret. cbn. now destruct (running w).
  - rewrite firstn_nil. reflexivity.
Qed.

Lemma working_dns_body_idle_example :
  working_dns_body (L := Sample.sample_libs)
    (socket_new listen_fd) (socket_new forward_fd)
    (set_running false (Sample.with_clients [Silence] (Sample.quiet 0))) =
    (Ret (if running
               (set_running false
                  (Sample.with_clients [Silence] (Sample.quiet 0)))
          then Continue else Break),
     taken [] (set_running false
                 (Sample.with_clients [Silence] (Sample.quiet 0)))).
Proof.
  apply (working_dns_body_idle (L := Sample.sample_libs)
           (set_running false (Sample.with_clients [Silence] (Sample.quiet 0)))
           Silence []).
  - reflexivity.
  - now left.
Defined.

(** ** A reset from the upstream *)

(** [recvfrom] on the forwarding socket stands before the [try] of
    [make_request]: when it raises [ConnectionResetError] for a forwarded
    query, the error passes the loop, is caught as a socket error around
    it, and [working_dns] returns after printing its message; the client
    gets nothing and the datagrams still waiting stay unserved. *)
Theorem working_dns_ends_on_upstream_reset {L : Libs}
    (w : world) data from rest rest_up domain_name q_type fuel :
  running w = true ->
  inbox w listen_fd = Datagram data from :: rest ->
  firstn 1024 data <> [] ->
  get_request_info (firstn 1024 data) = Ok (domain_name, q_type) ->
  lookup domain_name q_type (dns_cache w) = None ->
  inbox w forward_fd = ConnReset :: rest_up ->
  let r := working_dns (S fuel) w in
  fst r = Ret true /\
  stdout (snd r) = stdout w ++ [MsgSocketError] /\
  sent (snd r) = sent w ++ [(forward_fd, firstn 1024 data, upstream)] /\
  dns_cache (snd r) = dns_cache w /\
  inbox (snd r) listen_fd = rest.
Proof.
  intros Hrun Hin Hne Hinfo Hl Hup r.
  assert (E : exists w', r = (Ret true, w') /\
                stdout w' = stdout w ++ [MsgSocketError] /\
                sent w' = sent w ++ [(forward_fd, firstn 1024 data, upstream)] /\
                dns_cache w' = dns_cache w /\
                inbox w' listen_fd = rest).
  { subst r. unfold working_dns, try_except. cbv zeta. cbn [serve].
    unfold bind at 1. unfold get_running. rewrite Hrun.
    unfold bind at 1.
    rewrite (body_miss w data from rest _ _ Hin Hne Hinfo Hl).
    unfold bind at 1. unfold make_request.
    unfold bind at 1. unfold sendto at 1.
    unfold bind at 1. unfold recvfrom at 1.
    cbn [inbox set_sent set_inbox taken fd socket_new].
    change (Nat.eqb forward_fd listen_fd) with false. cbv iota.
    rewrite Hup. cbn.
    eexists. split; [reflexivity|]. repeat split. }
  destruct E as (w' & -> & H1 & H2 & H3 & H4). auto.
Qed.

Lemma working_dns_ends_on_upstream_reset_example :
  let w := Sample.with_upstream [ConnReset]
             (Sample.with_clients
                [Datagram Sample.query Sample.client;
                 Datagram Sample.query Sample.client]
                (Sample.quiet 0)) in
  let r := working_dns (L := Sample.sample_libs) 2 w in
  fst r = Ret true /\
  stdout (snd r) = stdout w ++ [MsgSocketError] /\
  sent (snd r) = sent w ++ [(forward_fd, firstn 1024 Sample.query, upstream)] /\
  dns_cache (snd r) = dns_cache w /\
  inbox (snd r) listen_fd = [Datagram Sample.query Sample.client].
Proof.
  intros w.
  apply (working_dns_ends_on_upstream_reset (L := Sample.sample_libs) w
           Sample.query Sample.client
           [Datagram Sample.query Sample.client] [] "example.com." "A" 1).
  - reflexivity.
  - reflexivity.
  - vm_compute. discriminate.
  - vm_compute. reflexivity.
  - reflexivity.
  - reflexivity.
Defined.

(** ** A miss, then a hit *)

Lemma make_request_decoded_rest {L : Libs}
    sock_send sock_rec data_request domain_name q_type address_request
    (w : world) data from rest ttl r_data :
  inbox w (fd sock_send) = Datagram data from :: rest ->
  firstn 1024 data <> [] ->
  get_response_info (firstn 1024 data) = Ok (ttl, r_data) ->
  let w' := snd (make_request sock_send sock_rec data_request domain_name
                   q_type address_request w) in
  reads w' = S (reads w) /\
  clock w' = clock w /\
  forall n, inbox w' n = if Nat.eqb n (fd sock_send) then rest else inbox w n.
Proof.
  intros Hin Hne Hinfo.
  unfold make_request, bind, sendto, recvfrom. cbn.
  rewrite Hin. cbn.
  destruct (firstn 1024 data) as [|b d] eqn:Hd; [congruence|].
  unfold try_except, bind. rewrite Hinfo. cbn. auto.
Qed.

(** Two clients ask the same question, one after the other, and the cache
    does not know it.  The first query is forwarded and its reply relayed;
    if the clock read for the second query is before the expiry computed
    for the reply, the second query is answered from the cache, without a
    second query to the upstream: the answer replays the payloads of the
    upstream records in their order, under the name and type of the
    question and with the ttl of the first upstream record. *)
Theorem miss_then_hit {L : Libs}
    (w : world) data from from2 rest request question others q_type
    reply up rest_up response first more :
  inbox w listen_fd = Datagram data from :: Datagram data from2 :: rest ->
  firstn 1024 data <> [] ->
  parse (firstn 1024 data) = Ok request ->
  questions request = question :: others ->
  QTYPE (qtype question) = Ok q_type ->
  lookup (qname question) q_type (dns_cache w) = None ->
  inbox w forward_fd = Datagram reply up :: rest_up ->
  firstn 1024 reply <> [] ->
  parse (firstn 1024 reply) = Ok response ->
  rr response = first :: more ->
  clock w (S (reads w)) < clock w (reads w) + timedelta_milliseconds (ttl first) ->
  let r1 := working_dns_body (socket_new listen_fd) (socket_new forward_fd) w in
  let r2 := working_dns_body (socket_new listen_fd) (socket_new forward_fd)
              (snd r1) in
  fst r1 = Ret Continue /\
  fst r2 = Ret Continue /\
  sent (snd r2) =
    sent w ++
    [(forward_fd, firstn 1024 data, upstream);
     (listen_fd, firstn 1024 reply, from);
     (listen_fd,
      pack (mkRecord (header request) [question]
              (map (fun a => mkRR (qname question) (qtype question) 1
                                (ttl first) (rdata a))
                 (rr response))),
      from2)].
Proof.
  intros Hin Hne Hp Hq Ht Hl Hup Hne' Hp' Hrr Hfresh r1 r2.
  pose proof (get_request_info_first _ _ _ _ _ Hp Hq Ht) as Hinfo.
  pose proof (get_response_info_first _ _ _ _ Hp' Hrr) as Hinfo'.
  set (rest0 := Datagram data from2 :: rest) in *.
  set (e := mkEntry (map rdata (rr response))
              (clock w (reads w) + timedelta_milliseconds (ttl first))
              (ttl first)).
  assert (E1 : r1 = bind (make_request (socket_new forward_fd)
                            (settimeout (socket_new listen_fd) 5)
                            (firstn 1024 data) (qname question) q_type from)
                      (fun _ => ret Continue) (taken rest0 w))
    by (subst r1; now apply body_miss).
  destruct (make_request_decoded (socket_new forward_fd)
              (settimeout (socket_new listen_fd) 5) (firstn 1024 data)
              (qname question) q_type from (taken rest0 w) reply up rest_up
              _ _ Hup Hne' Hinfo') as (Hf & Hc & Hs & _).
  destruct (make_request_decoded_rest (socket_new forward_fd)
              (settimeout (socket_new listen_fd) 5) (firstn 1024 data)
              (qname question) q_type from (taken rest0 w) reply up rest_up
              _ _ Hup Hne' Hinfo') as (Hr & Hk & Hi).
  assert (Hw1 : snd r1 = snd (make_request (socket_new forward_fd)
                            (settimeout (socket_new listen_fd) 5)
                            (firstn 1024 data) (qname question) q_type from
                            (taken rest0 w)))
    by (rewrite E1; apply snd_bind_ret).
  assert (Hf1 : fst r1 = Ret Continue).
  { rewrite E1. unfold bind.
    destruct (make_request _ _ _ _ _ _ _) as [o w1]. simpl in Hf.
    now subst o. }
  split; [exact Hf1|].
  destruct (body_fresh_hit (snd r1) data from2 rest request question others
              q_type e) as (Hf2 & Hs2 & _); try assumption.
  - rewrite Hw1, Hi. reflexivity.
  - rewrite Hw1, Hc. now apply lookup_store_absent.
  - rewrite Hw1, Hk, Hr. exact Hfresh.
  - split; [exact Hf2|].
    fold r2 in Hs2. rewrite Hs2, Hw1, Hs.
    cbn [sent taken set_inbox fd settimeout socket_new].
    rewrite <- app_assoc. simpl. unfold answer_for, e. cbn [e_ttl e_rdata].
    now rewrite map_map.
Qed.

Lemma miss_then_hit_example :
  let w := Sample.with_upstream [Datagram Sample.answer upstream]
             (set_inbox (fun n => if Nat.eqb n listen_fd
                                  then [Datagram Sample.query Sample.client;
                                        Datagram Sample.query ("127.0.0.1", 40001)]
                                  else [])
                (mkWorld [] true (fun n => 100000 * Z.of_nat n) 0
                   (fun _ => []) [] [] (fun _ => None))) in
  let r1 := working_dns_body (L := Sample.sample_libs)
              (socket_new listen_fd) (socket_new forward_fd) w in
  let r2 := working_dns_body (L := Sample.sample_libs)
              (socket_new listen_fd) (socket_new forward_fd) (snd r1) in
  fst r1 = Ret Continue /\
  fst r2 = Ret Continue /\
  sent (snd r2) =
    sent w ++
    [(forward_fd, firstn 1024 Sample.query, upstream);
     (listen_fd, firstn 1024 Sample.answer, Sample.client);
     (listen_fd,
      @pack Sample.sample_libs
        (mkRecord (header Sample.query_record) [Sample.example_question]
           (map (fun a => mkRR "example.com." 1 1 300 (rdata a))
              (rr Sample.answer_record))),
      ("127.0.0.1", 40001))].
Proof.
  intros w.
  apply (miss_then_hit (L := Sample.sample_libs) w Sample.query Sample.client
           ("127.0.0.1", 40001) [] Sample.query_record
           Sample.example_question [] "A" Sample.answer upstream []
           Sample.answer_record
           (mkRR "example.com." 1 1 300 Sample.example_rdata) []).
  - reflexivity.
  - vm_compute. discriminate.
  - vm_compute. reflexivity.
  - reflexivity.
  - reflexivity.
  - reflexivity.
  - reflexivity.
  - vm_compute. discriminate.
  - vm_compute. reflexivity.
  - reflexivity.
  - reflexivity.
Defined.

(** ** When an answer can be built, and what a deletion touches *)

(** [prepare_dns_response] returns exactly when the request parses, has a
    question, and the cache has an entry under the given name and type;
    otherwise it raises ([DNSError] from the parser, [IndexError] without
    a question, [KeyError] without an entry). *)
Theorem prepare_dns_response_returns_iff {L : Libs}
    data_request domain_name q_type (w : world) :
  (exists packet,
     fst (prepare_dns_response data_request domain_name q_type w) = Ret packet)
  <->
  (exists request question others e,
     parse data_request = Ok request /\
     questions request = question :: others /\
     lookup domain_name q_type (dns_cache w) = Some e).
Proof.
  split.
  - intros [packet H]. unfold prepare_dns_response in H.
    unfold bind at 1 in H.
    destruct (parse data_request) as [request|err]; [|discriminate]. simpl in H.
    destruct (questions request) as [|question others] eqn:Hq; [discriminate|].
    unfold bind at 1 in H. unfold get_cache in H.
    unfold bind at 1 in H.
    destruct (lookup domain_name q_type (dns_cache w)) as [e|]; [|discriminate].
    exists request, question, others, e. auto.
  - intros (request & question & others & e & Hp & Hq & Hl).
    rewrite (prepare_dns_response_spec data_request domain_name q_type request
               question others e w Hp Hq Hl).
    eexists. reflexivity.
Qed.

(** [del self.dns_cache[domain_name][q_type]] on a key that is there
    returns, removes that key and no other, leaves the domain name in the
    outer dictionary, and keeps the keys unique. *)
Theorem del_record_removes_one_key domain_name q_type e (w : world) :
  wf_cache (dns_cache w) ->
  lookup domain_name q_type (dns_cache w) = Some e ->
  let r := del_record domain_name q_type w in
  fst r = Ret tt /\
  wf_cache (dns_cache (snd r)) /\
  lookup domain_name q_type (dns_cache (snd r)) = None /\
  (forall d q, (d, q) <> (domain_name, q_type) ->
               lookup d q (dns_cache (snd r)) = lookup d q (dns_cache w)) /\
  keys (dns_cache (snd r)) = keys (dns_cache w).
Proof.
  intros Hwf Hl r.
  destruct (del_record_present domain_name q_type e w Hwf Hl)
    as (c' & Hdel & Hwf' & Hgone & Hother).
  pose proof (keys_after_del_record domain_name q_type w) as Hk.
  subst r. rewrite Hdel in *. simpl in *. auto.
Qed.

Lemma del_record_removes_one_key_example :
  let w := set_cache Sample.two_entries (Sample.quiet 0) in
  let r := del_record "example.com." "A" w in
  fst r = Ret tt /\
  wf_cache (dns_cache (snd r)) /\
  lookup "example.com." "A" (dns_cache (snd r)) = None /\
  (forall d q, (d, q) <> ("example.com.", "A") ->
               lookup d q (dns_cache (snd r)) = lookup d q (dns_cache w)) /\
  keys (dns_cache (snd r)) = keys (dns_cache w).
Proof.
  intros w.
  apply (del_record_removes_one_key "example.com." "A" Sample.entry_a w).
  - solve_wf.
  - reflexivity.
Defined.
